(** * RPS-Minus-One live solver: the decision logic of [rps_live_solver.py]

    The development embeds the game logic ([beats], [remove_gesture]), the
    hand classifier ([RPSCustomSolver._assign_hands_to_players]), the
    resolver ([RPSCustomSolver.solve]) and, around them, [detect_hands] and
    [main].  It proves the properties the specification states about them
    (C1 to C10) and further properties read off the code (X1 to X14).

    Conventions of the embedding:
    - gestures are Python strings, hence [string]; nothing restricts a caller
      of [remove_gesture] to the three names of [GESTURES];
    - a Python [set] is a [gset string]; turning a set into a list
      ([list(s)], or unpacking it) enumerates it in an order the language
      leaves open, which the model takes from an [Oracle];
    - [random.choice] takes its draw from the same [Oracle];
    - a raised exception is a value ([Raise]); printing is a list of lines;
    - [Hand] objects live in a store indexed by references, since the
      classifier labels them in place;
    - the detection library is outside the program: what it returns to
      [detect_hands] is an input of the model ([Detector]);
    - the normalized coordinates are finite floats; only [<] is ever applied
      to them, which on finite floats is the order of the rationals they
      denote, so they are modelled in [Q]. *)

From stdpp Require Import base decidable option list sorting functions gmap strings pretty.
From Stdlib Require Import QArith Ascii.

Close Scope Q_scope.
Open Scope string_scope.
Open Scope list_scope.

Set Warnings "-clear-no-such-hyp".   (* raised inside stdpp's solvers *)

(** ** 1. Configuration *)

Definition GESTURES : list string := ["rock"; "paper"; "scissors"].

Definition GESTURE_ID_MAP : gmap Z string :=
  <[0%Z := "rock"]> (<[1%Z := "paper"]> (<[2%Z := "scissors"]> ∅)).

(** ** Python effects: exceptions, printing, unspecified orders *)

Inductive exn : Type :=
  | IndexError
  | ValueError
  | KeyError.

Inductive result (A : Type) : Type :=
  | Return (a : A)
  | Raise (e : exn).

Arguments Return {A} a.
Arguments Raise {A} e.

(** Sequencing stops at the first exception; [x ← m; k] is stdpp's notation
    for [mbind]. *)
Global Instance result_ret : MRet result := λ A a, Return a.

Global Instance result_bind : MBind result := λ A B k m,
  match m with
  | Return a => k a
  | Raise e => Raise e
  end.

(** [insert_at n x l] puts [x] in front of position [n] of [l] (at the end when
    [l] is shorter). *)
Fixpoint insert_at {A : Type} (n : nat) (x : A) (l : list A) : list A :=
  match n, l with
  | O, _ => x :: l
  | S n', y :: l' => y :: insert_at n' x l'
  | S _, [] => [x]
  end.

(** [arrange code l] reorders [l]: the numbers of [code] say where each element
    goes.  Every [code] gives a permutation of [l] and every permutation of [l]
    is given by some [code] ([arrange_Permutation], [arrange_complete]). *)
Fixpoint arrange {A : Type} (code : list nat) (l : list A) : list A :=
  match l with
  | [] => []
  | x :: l' => insert_at (hd O code) x (arrange (tl code) l')
  end.

(** What one call of [remove_gesture] leaves open: the enumeration order of
    the four sets it turns into lists, and the draw of [random.choice]. *)
Record Oracle : Type := mkOracle {
  order_common : list nat;
  order_my_unique : list nat;
  order_opp_unique : list nat;
  order_my_set : list nat;
  draw : nat
}.

Definition oracle0 : Oracle := mkOracle [] [] [] [] 0.

(** [list(s)] for a set [s]. *)
Definition list_of_set (code : list nat) (s : gset string) : list string :=
  arrange code (elements s).

(** [random.choice(seq)]: [IndexError] on an empty sequence, otherwise one of
    its elements. *)
Definition random_choice (r : nat) (seq : list string) : result string :=
  match seq !! (r mod length seq) with
  | Some x => Return x
  | None => Raise IndexError
  end.

(** ** 2. Hand data structure *)

Record Hand : Type := mkHand {
  gesture_id : Z;
  x_center : Q;
  y_center : Q;
  width : Q;
  height : Q;
  player : option string;
  side : option string
}.

(** [Hand.__init__] *)
Definition new_Hand (gesture_id : Z) (x_center y_center width height : Q) : Hand :=
  mkHand gesture_id x_center y_center width height None None.

Definition set_player (v : string) (h : Hand) : Hand :=
  mkHand (gesture_id h) (x_center h) (y_center h) (width h) (height h)
         (Some v) (side h).

Definition set_side (v : string) (h : Hand) : Hand :=
  mkHand (gesture_id h) (x_center h) (y_center h) (width h) (height h)
         (player h) (Some v).

(** References to [Hand] objects and the store they live in. *)
Abbreviation ref := nat (only parsing).
Abbreviation store := (nat → Hand) (only parsing).

(** ** 3. Game logic functions *)

Definition beats (a b : string) : bool :=
  (bool_decide (a = "rock") && bool_decide (b = "scissors"))
  || (bool_decide (a = "scissors") && bool_decide (b = "paper"))
  || (bool_decide (a = "paper") && bool_decide (b = "rock")).

(** The [return] (or raising) statement that ends a call of [remove_gesture]. *)
Inductive site : Type :=
  | IdenticalSets      (* lines 39-44, [len(common) == 2] *)
  | WarningFallback    (* lines 49-51, the guard of [len(common) == 1] *)
  | Rule2              (* lines 59-60 *)
  | Rule4              (* lines 63-64 *)
  | NoCommon           (* lines 67-72, [len(common) == 0] *)
  | FinalFallback.     (* line 74 *)

Record run : Type := mkRun {
  at_site : site;
  printed : list string;
  value : result string
}.

Definition WARNING : string :=
  "WARNING: Player hand input violates game rules (not exactly 2 distinct gestures). Falling back to arbitrary choice.".

(** Lines 66-74: what follows the [if len(common) == 1] block. *)
Definition remove_gesture_tail (ω : Oracle) (my_hand : list string)
    (common : list string) : run :=
  if decide (length common = 0)
  then mkRun NoCommon [] (random_choice (draw ω) my_hand)
  else mkRun FinalFallback [] (Return "rock").

Definition remove_gesture (ω : Oracle) (my_hand opp_hand : list string) : run :=
  let my_set : gset string := list_to_set my_hand in
  let opp_set : gset string := list_to_set opp_hand in
  let common := list_of_set (order_common ω) (my_set ∩ opp_set) in
  let my_unique := list_of_set (order_my_unique ω) (my_set ∖ opp_set) in
  let opp_unique := list_of_set (order_opp_unique ω) (opp_set ∖ my_set) in
  if decide (length common = 2) then
    match list_of_set (order_my_set ω) my_set with
    | [a; b] =>
        if beats a b then mkRun IdenticalSets [] (Return b)
        else mkRun IdenticalSets [] (Return a)
    | _ => mkRun IdenticalSets [] (Raise ValueError)
    end
  else if decide (length common = 1) then
    if decide (length my_unique ≠ 1 ∨ length opp_unique ≠ 1) then
      mkRun WarningFallback [WARNING] (random_choice (draw ω) my_hand)
    else
      match common, my_unique, opp_unique with
      | common_gesture :: _, my_nc :: _, opp_nc :: _ =>
          if beats my_nc opp_nc then mkRun Rule2 [] (Return my_nc)
          else if beats opp_nc my_nc then mkRun Rule4 [] (Return common_gesture)
          else remove_gesture_tail ω my_hand common
      | _, _, _ => mkRun Rule2 [] (Raise IndexError)
      end
  else remove_gesture_tail ω my_hand common.

(** ** 5. RPSCustomSolver *)

(** [x < y] on coordinates. *)
Global Instance Qlt_decision (x y : Q) : Decision (x < y)%Q :=
  match Qlt_le_dec x y with
  | left H => left H
  | right H => right (Qle_not_lt y x H)
  end.

(** [list.sort(key=...)]: a stable sort that compares keys with [<].  The
    element [x] stood in front of the elements of [l], so it stays in front of
    those with an equal key. *)
Fixpoint insert_by (key : ref → Q) (x : ref) (l : list ref) : list ref :=
  match l with
  | [] => [x]
  | y :: l' => if decide (key y < key x)%Q then y :: insert_by key x l'
               else x :: y :: l'
  end.

Fixpoint sort_by (key : ref → Q) (l : list ref) : list ref :=
  match l with
  | [] => []
  | x :: l' => insert_by key x (sort_by key l')
  end.

(** Lines 134-141, the loop over [self.hands]. *)
Fixpoint assign_loop (hands : list ref) (σ : store)
    (opponent_hands my_hands : list ref) : (nat → Hand) * list ref * list ref :=
  match hands with
  | [] => (σ, opponent_hands, my_hands)
  | hand :: rest =>
      if decide (y_center (σ hand) < 0.5)%Q
      then assign_loop rest (alter (set_player "OPPONENT") hand σ)
                       (opponent_hands ++ [hand]) my_hands
      else assign_loop rest (alter (set_player "MINE") hand σ)
                       opponent_hands (my_hands ++ [hand])
  end.

(** Lines 144-146. *)
Definition label_sides (σ : store) (my_hands : list ref) : nat → Hand :=
  match my_hands with
  | h0 :: h1 :: _ => alter (set_side "RIGHT") h1 (alter (set_side "LEFT") h0 σ)
  | _ => σ
  end.

(** The state of a solver after [_assign_hands_to_players]: the store and the
    two attributes the method sets. *)
Record Assigned : Type := mkAssigned {
  heap : nat → Hand;
  opponent_hands : list ref;
  my_hands : list ref
}.

Definition _assign_hands_to_players (σ : store) (hands : list ref) : Assigned :=
  let '(σ1, opponent_hands, my_hands) := assign_loop hands σ [] [] in
  let my_hands := sort_by (λ h, x_center (σ1 h)) my_hands in
  let σ2 := label_sides σ1 my_hands in
  let opponent_hands := sort_by (λ h, x_center (σ2 h)) opponent_hands in
  mkAssigned σ2 opponent_hands my_hands.

(** [self.gesture_names[h.gesture_id]] *)
Definition gesture_name (σ : store) (h : ref) : result string :=
  match GESTURE_ID_MAP !! gesture_id (σ h) with
  | Some name => Return name
  | None => Raise KeyError
  end.

(** [[self.gesture_names[h.gesture_id] for h in hs]] *)
Fixpoint gesture_names_of (σ : store) (hs : list ref) : result (list string) :=
  match hs with
  | [] => Return []
  | h :: hs' =>
      name ← gesture_name σ h;
      names ← gesture_names_of σ hs';
      Return (name :: names)
  end.

(** [seq[i]] *)
Definition index {A : Type} (seq : list A) (i : nat) : result A :=
  match seq !! i with
  | Some x => Return x
  | None => Raise IndexError
  end.

Definition upper (c : ascii) : ascii :=
  let n := nat_of_ascii c in
  if (97 <=? n)%nat && (n <=? 122)%nat then ascii_of_nat (n - 32) else c.

Definition lower (c : ascii) : ascii :=
  let n := nat_of_ascii c in
  if (65 <=? n)%nat && (n <=? 90)%nat then ascii_of_nat (n + 32) else c.

Fixpoint lower_all (s : string) : string :=
  match s with
  | EmptyString => EmptyString
  | String c s' => String (lower c) (lower_all s')
  end.

(** [str.capitalize()] on ASCII text, which the gesture names are. *)
Definition capitalize (s : string) : string :=
  match s with
  | EmptyString => EmptyString
  | String c s' => String (upper c) (lower_all s')
  end.

Definition nl : string := String (ascii_of_nat 10) EmptyString.

(** Line 158. *)
Definition count_mismatch_message (n_opponent n_mine : nat) : string :=
  "⚠️ Error: Model detected " +:+ pretty n_opponent
  +:+ " opponent hand(s) and " +:+ pretty n_mine
  +:+ " of your hand(s). Need two of each for the game.".

(** Line 182. *)
Definition logic_error_message (gesture_to_remove : string) : string :=
  "⚠️ Logic Error: Could not find the physical hand matching the required removal gesture: **"
  +:+ gesture_to_remove +:+ "**".

(** Lines 185-191. *)
Definition result_message (my0 my1 opp0 opp1 gesture_to_remove side : string)
    : string :=
  nl +:+ "--- Game Analysis ---" +:+ nl
  +:+ "Your hands: **" +:+ capitalize my0 +:+ "** (Left), **"
  +:+ capitalize my1 +:+ "** (Right)" +:+ nl
  +:+ "Opponent's hands: **" +:+ capitalize opp0 +:+ "**, **"
  +:+ capitalize opp1 +:+ "**" +:+ nl
  +:+ "Custom Logic Determined Remove: **" +:+ capitalize gesture_to_remove
  +:+ "**" +:+ nl
  +:+ "✅ **ACTION: REMOVE your " +:+ side +:+ " hand.**".

(** What a call of [solve] leaves behind: the store, the lines printed and
    the string returned (or the exception raised). *)
Record Solved : Type := mkSolved {
  final : Assigned;
  output : list string;
  answer : result string
}.

(** Lines 160-193, after the count check. *)
Definition solve_game (ω : Oracle) (s : Assigned) : list string * result string :=
  match gesture_names_of (heap s) (my_hands s) with
  | Raise e => ([], Raise e)
  | Return my_gesture_names =>
  match gesture_names_of (heap s) (opponent_hands s) with
  | Raise e => ([], Raise e)
  | Return opp_gesture_names =>
  let r := remove_gesture ω my_gesture_names opp_gesture_names in
  (printed r,
   gesture_to_remove ← value r;
   h0 ← index (my_hands s) 0;
   name0 ← gesture_name (heap s) h0;
   hand_to_remove_side ←
     (if bool_decide (name0 = gesture_to_remove) then
        h1 ← index (my_hands s) 1;
        name1 ← gesture_name (heap s) h1;
        if bool_decide (name1 = gesture_to_remove) then Return (Some "LEFT")
        else Return (Some "LEFT")
      else
        h1 ← index (my_hands s) 1;
        name1 ← gesture_name (heap s) h1;
        if bool_decide (name1 = gesture_to_remove) then Return (Some "RIGHT")
        else Return None);
   match hand_to_remove_side with
   | None => Return (logic_error_message gesture_to_remove)
   | Some side =>
       my0 ← index my_gesture_names 0;
       my1 ← index my_gesture_names 1;
       opp0 ← index opp_gesture_names 0;
       opp1 ← index opp_gesture_names 1;
       Return (result_message my0 my1 opp0 opp1 gesture_to_remove side)
   end)
  end end.

Definition solve (ω : Oracle) (σ : store) (hands : list ref) : Solved :=
  let s := _assign_hands_to_players σ hands in
  if decide (length (opponent_hands s) < 2 ∨ length (my_hands s) < 2)%nat then
    mkSolved s []
      (Return (count_mismatch_message (length (opponent_hands s))
                                      (length (my_hands s))))
  else
    let '(out, ans) := solve_game ω s in
    mkSolved s out ans.

(** A store holding the objects of [l] at the references [0], [1], ... *)
Definition store_of (l : list Hand) : nat → Hand :=
  λ r, nth r l (new_Hand 0 0 0 0 0).

(** ** 4. Data extraction and parsing *)

Definition YOLO_MODEL_PATH : string := "best.pt".

(** What the detector reports.  A box gives its normalized centre, width and
    height ([box.xywhn[0].tolist()]) and its class, a float
    ([box.cls[0].item()]); a result holds the boxes of one image and the
    size of that image. *)
Record Box : Type := mkBox {
  box_x : Q;
  box_y : Q;
  box_w : Q;
  box_h : Q;
  cls : Q
}.

Record Results : Type := mkResults {
  boxes : list Box;
  orig_shape : Z * Z
}.

(** The two calls into the detection library, as [detect_hands] sees them:
    [YOLO(model_path)] raises (with the message [details]) or gives a model,
    and that model, called on the image, returns its results.  An exception
    of the second call is caught nowhere and ends the program; such runs are
    not modelled. *)
Inductive Detector : Type :=
  | LoadError (details : string)
  | Loaded (results : list Results).

(** [int(x)] on a finite float: truncation towards zero. *)
Definition int (x : Q) : Z := Z.quot (Qnum x) (Z.pos (Qden x)).

(** Lines 105-118, the loop over [r.boxes]. *)
Fixpoint detect_loop (bs : list Box) (gesture_map : gmap Z string)
    (hands : list Hand) : list Hand :=
  match bs with
  | [] => hands
  | box :: rest =>
      let class_id := int (cls box) in
      if decide (is_Some (gesture_map !! class_id))
      then detect_loop rest gesture_map
             (hands ++ [new_Hand class_id (box_x box) (box_y box)
                                 (box_w box) (box_h box)])
      else detect_loop rest gesture_map hands
  end.

(** [detect_hands]: the lines printed and the list returned. *)
Definition detect_hands (image_path model_path : string)
    (gesture_map : gmap Z string) (yolo : Detector) : list string * list Hand :=
  match yolo with
  | LoadError details =>
      (["Error loading model from " +:+ model_path
        +:+ ". Ensure 'ultralytics' is installed and the file exists.";
        "Details: " +:+ details], [])
  | Loaded results =>
      match results with
      | r :: _ =>
          match boxes r with
          | [] => ([], [])
          | _ :: _ => ([], detect_loop (boxes r) gesture_map [])
          end
      | [] => ([], [])
      end
  end.

(** ** 6. Main execution *)

Definition NO_HANDS : string :=
  "❌ No hands were detected in the image, or the model failed to load.".

(** [main], after the command line is parsed: the lines printed, and the
    exception that ends the run if there is one.  The [Hand] objects that
    [detect_hands] built are new objects, the references [0], [1], ... of
    [store_of hands]. *)
Definition main (ω : Oracle) (image_path : string) (yolo : Detector)
    : list string * result unit :=
  let running :=
    "Running detection on " +:+ image_path +:+ " using model "
    +:+ YOLO_MODEL_PATH +:+ "..." in
  let '(printed_by_detect, hands) :=
    detect_hands image_path YOLO_MODEL_PATH GESTURE_ID_MAP yolo in
  match hands with
  | [] => (running :: printed_by_detect ++ [NO_HANDS], Return ())
  | _ :: _ =>
      let solved := solve ω (store_of hands) (seq 0 (length hands)) in
      match answer solved with
      | Return instruction =>
          (running :: printed_by_detect ++ output solved ++ [instruction],
           Return ())
      | Raise e => (running :: printed_by_detect ++ output solved, Raise e)
      end
  end.

(** The [Hand] line 112 builds for a box, when its class is a key of the map. *)
Definition hand_of_box (gesture_map : gmap Z string) (box : Box) : option Hand :=
  if decide (is_Some (gesture_map !! int (cls box)))
  then Some (new_Hand (int (cls box)) (box_x box) (box_y box)
                      (box_w box) (box_h box))
  else None.

(** The boxes [detect_hands] reads: those of the first result. *)
Definition first_boxes (yolo : Detector) : list Box :=
  match yolo with
  | Loaded (r :: _) => boxes r
  | _ => []
  end.

(** A detection with rock and paper above the middle of the frame and rock,
    paper and scissors below it. *)
Definition five_boxes : Detector :=
  Loaded [mkResults [ mkBox 0.2 0.2 0.1 0.1 0; mkBox 0.6 0.3 0.1 0.1 1;
                      mkBox 0.1 0.7 0.1 0.1 0; mkBox 0.5 0.8 0.1 0.1 1;
                      mkBox 0.8 0.8 0.1 0.1 2 ]
                    (640, 480)%Z].

(** A detection whose only box has a class outside the map. *)
Definition unknown_box : Detector :=
  Loaded [mkResults [mkBox 0.5 0.5 0.2 0.2 7] (640, 480)%Z].

(** Names for the notions the properties speak about. *)

Definition valid_gesture (g : string) : Prop := g ∈ GESTURES.

(** [x == y] on coordinates. *)
Global Instance Qeq_decision (x y : Q) : Decision (x == y)%Q := Qeq_dec x y.

(** The hands whose class is a key of [GESTURE_ID_MAP]. *)
Definition known_class (σ : store) (h : ref) : Prop :=
  is_Some (GESTURE_ID_MAP !! gesture_id (σ h)).

(** The hands in the upper half of the frame, and the others. *)
Definition upper_half (σ : store) (h : ref) : Prop := (y_center (σ h) < 0.5)%Q.

Definition opponent_of (σ : store) (hands : list ref) : list ref :=
  filter (λ h, upper_half σ h) hands.

Definition self_of (σ : store) (hands : list ref) : list ref :=
  filter (λ h, ¬ upper_half σ h) hands.

(** The order [sort_by key] sorts by. *)
Definition key_le (key : nat → Q) (a b : nat) : Prop := (key a <= key b)%Q.

(** The [player] label line 137 or line 140 writes on the hand [h]. *)
Definition label_of (σ : store) (h : ref) : string :=
  if decide (upper_half σ h) then "OPPONENT" else "MINE".

(** Two [Hand] records that differ in their labels at most. *)
Definition same_detection (h h' : Hand) : Prop :=
  gesture_id h = gesture_id h' ∧ x_center h = x_center h'
  ∧ y_center h = y_center h' ∧ width h = width h' ∧ height h = height h'.

(** The gestures both sides show. *)
Definition shared (my_hand opp_hand : list string) : gset string :=
  list_to_set my_hand ∩ list_to_set opp_hand.

(** The first character tells the count message from an instruction. *)
Definition first_char (s : string) : option ascii :=
  match s with
  | EmptyString => None
  | String c _ => Some c
  end.

(** A string without a blank, as the decimal numbers of the messages are. *)
Fixpoint spaceless (s : string) : Prop :=
  match s with
  | EmptyString => True
  | String c s' => c ≠ " "%char ∧ spaceless s'
  end.

(** One OPPONENT hand and two SELF hands. *)
Definition three_hands : list Hand :=
  [ new_Hand 0 0.1 0.2 0.1 0.1;
    new_Hand 1 0.7 0.7 0.1 0.1;
    new_Hand 0 0.2 0.8 0.1 0.1 ].

(** Two OPPONENT hands and three SELF hands: rock, paper and rock from left
    to right, against rock and scissors. *)
Definition five_hands : list Hand :=
  [ new_Hand 0 0.1 0.2 0.1 0.1;
    new_Hand 2 0.6 0.3 0.1 0.1;
    new_Hand 0 0.1 0.7 0.1 0.1;
    new_Hand 1 0.2 0.8 0.1 0.1;
    new_Hand 0 0.3 0.8 0.1 0.1 ].

(** Four hands with [y_center] 0.2, 0.3, 0.7 and 0.8; the SELF hand at
    reference 3 is the one further left. *)
Definition four_hands : list Hand :=
  [ new_Hand 0 0.4 0.2 0.1 0.1;
    new_Hand 1 0.6 0.3 0.1 0.1;
    new_Hand 2 0.8 0.7 0.1 0.1;
    new_Hand 0 0.3 0.8 0.1 0.1 ].

(** * Properties *)

(** ** Enumeration orders *)

Section arrange.
Context {A : Type}.
Implicit Types (x : A) (l : list A).

Lemma insert_at_Permutation n x l : insert_at n x l ≡ₚ x :: l.
Proof.
  revert n; induction l as [|y l IH]; intros [|n]; simpl; try done.
  rewrite IH. apply Permutation_swap.
Qed.

Lemma arrange_Permutation code l : arrange code l ≡ₚ l.
Proof.
  revert code; induction l as [|x l IH]; intros code; simpl; [done|].
  by rewrite insert_at_Permutation, IH.
Qed.

Lemma length_arrange code l : length (arrange code l) = length l.
Proof. by rewrite arrange_Permutation. Qed.

Lemma insert_at_middle x l1 l2 : insert_at (length l1) x (l1 ++ l2) = l1 ++ x :: l2.
Proof. induction l1 as [|y l1 IH]; simpl; [by destruct l2|by rewrite IH]. Qed.

(** No order is left out. *)
Lemma arrange_complete l l' : l ≡ₚ l' → ∃ code, arrange code l = l'.
Proof.
  revert l'; induction l as [|x l IH]; intros l' Hp.
  - apply Permutation_nil in Hp. subst l'. by exists [].
  - assert (x ∈ l') as Hx by (rewrite <- Hp; left).
    apply list_elem_of_split in Hx as (l1 & l2 & ->).
    apply Permutation_cons_app_inv in Hp.
    destruct (IH _ Hp) as [code Hc].
    exists (length l1 :: code); simpl. by rewrite Hc, insert_at_middle.
Qed.

Lemma arrange_nil_inv code l : arrange code l = [] → l = [].
Proof. intros H. apply Permutation_nil_r. by rewrite <- H, arrange_Permutation. Qed.

Lemma arrange_singleton code x : arrange code [x] = [x].
Proof. simpl. by destruct (hd 0%nat code). Qed.
End arrange.

Lemma Permutation_pair_inv {A} (a b : A) l :
  l ≡ₚ [a; b] → l = [a; b] ∨ l = [b; a].
Proof.
  intros Hp. assert (length l = 2%nat) as Hlen by (by rewrite Hp).
  destruct l as [|x [|y [|]]]; simplify_eq/=.
  assert (x ∈ [a; b]) as Hx by (rewrite <- Hp; left).
  assert (y ∈ [a; b]) as Hy by (rewrite <- Hp; right; left).
  assert (a ∈ [x; y]) as Ha by (rewrite Hp; left).
  assert (b ∈ [x; y]) as Hb by (rewrite Hp; right; left).
  set_unfold. intuition (subst; auto).
Qed.

Section list_of_set.
Implicit Types (s : gset string) (code : list nat).

Lemma list_of_set_Permutation code s : list_of_set code s ≡ₚ elements s.
Proof. apply arrange_Permutation. Qed.

Lemma length_list_of_set code s : length (list_of_set code s) = size s.
Proof. unfold list_of_set. by rewrite length_arrange. Qed.

Lemma elem_of_list_of_set code s x : x ∈ list_of_set code s ↔ x ∈ s.
Proof. by rewrite list_of_set_Permutation, elem_of_elements. Qed.

Lemma list_of_set_empty code : list_of_set code ∅ = [].
Proof. unfold list_of_set. by rewrite elements_empty. Qed.

Lemma list_of_set_singleton code x : list_of_set code {[x]} = [x].
Proof. unfold list_of_set. by rewrite elements_singleton, arrange_singleton. Qed.

Lemma list_of_set_pair code a b :
  a ≠ b →
  list_of_set code {[a; b]} = [a; b] ∨ list_of_set code {[a; b]} = [b; a].
Proof.
  intros Hab. apply Permutation_pair_inv.
  rewrite list_of_set_Permutation, elements_union_singleton by set_solver.
  by rewrite elements_singleton.
Qed.

(** Every order of the elements is one [list(s)] can give. *)
Lemma list_of_set_complete s l : l ≡ₚ elements s → ∃ code, list_of_set code s = l.
Proof. intros Hp. by apply arrange_complete. Qed.
End list_of_set.

(** ** [random.choice] *)

Lemma random_choice_elem_of r seq :
  seq ≠ [] → ∃ x, random_choice r seq = Return x ∧ x ∈ seq.
Proof.
  intros Hne. unfold random_choice.
  assert (r mod length seq < length seq)%nat as Hlt.
  { apply Nat.mod_upper_bound. by destruct seq. }
  apply lookup_lt_is_Some in Hlt as [x Hx]. rewrite Hx.
  exists x. split; [done|]. by eapply list_elem_of_lookup_2.
Qed.

(** No element is left out. *)
Lemma random_choice_complete seq x :
  x ∈ seq → ∃ r, random_choice r seq = Return x.
Proof.
  intros Hx. apply list_elem_of_lookup in Hx as [i Hi].
  exists i. unfold random_choice.
  rewrite Nat.mod_small by (by eapply lookup_lt_Some). by rewrite Hi.
Qed.

Lemma random_choice_nil r : random_choice r [] = Raise IndexError.
Proof. done. Qed.

Lemma random_choice_twice r g : random_choice r [g; g] = Return g.
Proof.
  destruct (random_choice_elem_of r [g; g]) as (x & -> & Hx); [done|].
  set_unfold. by destruct Hx as [->|[->|[]]].
Qed.

(** ** [beats] *)

Lemma beats_spec a b :
  beats a b = true ↔
    (a = "rock" ∧ b = "scissors") ∨ (a = "scissors" ∧ b = "paper")
    ∨ (a = "paper" ∧ b = "rock").
Proof.
  unfold beats. rewrite !orb_true_iff, !andb_true_iff, !bool_decide_eq_true.
  tauto.
Qed.

Lemma beats_irrefl x : beats x x = false.
Proof.
  apply not_true_is_false. rewrite beats_spec. intros [[-> ?]|[[-> ?]|[-> ?]]]; done.
Qed.

Lemma beats_asym a b : beats a b = true → beats b a = false.
Proof.
  rewrite beats_spec. intros H. apply not_true_is_false. rewrite beats_spec.
  intros H'. destruct H as [[-> ->]|[[-> ->]|[-> ->]]];
    destruct H' as [[? ?]|[[? ?]|[? ?]]]; done.
Qed.

Lemma beats_valid a b : beats a b = true → valid_gesture a ∧ valid_gesture b.
Proof.
  rewrite beats_spec. unfold valid_gesture, GESTURES.
  intros [[-> ->]|[[-> ->]|[-> ->]]]; set_solver.
Qed.

Lemma beats_total a b :
  valid_gesture a → valid_gesture b → a ≠ b →
  beats a b = true ∨ beats b a = true.
Proof.
  unfold valid_gesture, GESTURES. rewrite !beats_spec. set_unfold.
  intros [->|[->|[->|[]]]] [->|[->|[->|[]]]] Hne; try done; tauto.
Qed.

(** ** [remove_gesture], branch by branch *)

Lemma size_pair (a b : string) : a ≠ b → size ({[a; b]} : gset string) = 2%nat.
Proof. intros. rewrite size_union, !size_singleton by set_solver. done. Qed.

Lemma list_to_set_twice (g : string) : list_to_set [g; g] = ({[g]} : gset string).
Proof. set_solver. Qed.

Lemma list_to_set_pair (a b : string) : list_to_set [a; b] = ({[a; b]} : gset string).
Proof. set_solver. Qed.

(** A two-element list holding [a] and [b], which differ, is the set [{a, b}]. *)
Lemma list_to_set_two (l : list string) a b :
  length l = 2%nat → a ∈ l → b ∈ l → a ≠ b →
  list_to_set l = ({[a; b]} : gset string).
Proof.
  intros Hlen Ha Hb Hab. destruct l as [|x [|y [|]]]; simplify_eq/=.
  set_unfold. intuition (subst; try done); set_solver.
Qed.

(** Lines 39-44: the two sides hold the same two gestures [a] and [b], and
    [a] beats [b].  Whichever of the two the unpacking calls [a], the call
    returns the beaten one. *)
Lemma remove_gesture_identical ω my_hand opp_hand a b :
  list_to_set my_hand = ({[a; b]} : gset string) →
  list_to_set opp_hand = ({[a; b]} : gset string) →
  beats a b = true →
  remove_gesture ω my_hand opp_hand = mkRun IdenticalSets [] (Return b).
Proof.
  intros Hm Ho Hbeats. unfold remove_gesture. rewrite Hm, Ho. cbv zeta.
  assert (a ≠ b) as Hab by (intros ->; by rewrite beats_irrefl in Hbeats).
  replace ({[a; b]} ∩ {[a; b]} : gset string) with ({[a; b]} : gset string)
    by set_solver.
  rewrite length_list_of_set, size_pair by done.
  rewrite decide_True by done.
  destruct (list_of_set_pair (order_my_set ω) a b Hab) as [-> | ->].
  - by rewrite Hbeats.
  - by rewrite (beats_asym a b Hbeats).
Qed.

(** Lines 46-74 past the guard: one gesture [c] is shared, [m] is the player's
    other gesture and [o] the opponent's other gesture. *)
Lemma remove_gesture_one_common ω my_hand opp_hand c m o :
  list_to_set my_hand = ({[c; m]} : gset string) →
  list_to_set opp_hand = ({[c; o]} : gset string) →
  m ≠ c → o ≠ c → m ≠ o →
  remove_gesture ω my_hand opp_hand =
    if beats m o then mkRun Rule2 [] (Return m)
    else if beats o m then mkRun Rule4 [] (Return c)
    else mkRun FinalFallback [] (Return "rock").
Proof.
  intros Hm Ho Hmc Hoc Hmo. unfold remove_gesture. rewrite Hm, Ho. cbv zeta.
  replace ({[c; m]} ∩ {[c; o]} : gset string) with ({[c]} : gset string)
    by set_solver.
  replace ({[c; m]} ∖ {[c; o]} : gset string) with ({[m]} : gset string)
    by set_solver.
  replace ({[c; o]} ∖ {[c; m]} : gset string) with ({[o]} : gset string)
    by set_solver.
  by rewrite !list_of_set_singleton.
Qed.

(** The player shows the same gesture twice: whatever the opponent shows, the
    call ends in one of the two [random.choice] statements, which can only
    draw [g]. *)
Lemma remove_gesture_twice ω g opp_hand :
  remove_gesture ω [g; g] opp_hand =
    if decide (g ∈ opp_hand) then mkRun WarningFallback [WARNING] (Return g)
    else mkRun NoCommon [] (Return g).
Proof.
  unfold remove_gesture. rewrite list_to_set_twice. cbv zeta.
  unfold remove_gesture_tail. rewrite random_choice_twice.
  destruct (decide (g ∈ opp_hand)) as [Hin|Hin].
  - replace ({[g]} ∩ list_to_set opp_hand : gset string) with ({[g]} : gset string)
      by set_solver.
    replace ({[g]} ∖ list_to_set opp_hand : gset string) with (∅ : gset string)
      by set_solver.
    by rewrite list_of_set_singleton, list_of_set_empty.
  - replace ({[g]} ∩ list_to_set opp_hand : gset string) with (∅ : gset string)
      by set_solver.
    by rewrite list_of_set_empty.
Qed.

(** Lines 49-51: the player shows two gestures that differ and the opponent
    shows one of them twice.  The guard fires and the result is drawn. *)
Lemma remove_gesture_opp_twice ω my_hand opp_hand a b c :
  list_to_set my_hand = ({[a; b]} : gset string) →
  list_to_set opp_hand = ({[c]} : gset string) →
  a ≠ b → c = a ∨ c = b →
  remove_gesture ω my_hand opp_hand =
    mkRun WarningFallback [WARNING] (random_choice (draw ω) my_hand).
Proof.
  intros Hm Ho Hab Hc. unfold remove_gesture. rewrite Hm, Ho. cbv zeta.
  replace ({[a; b]} ∩ {[c]} : gset string) with ({[c]} : gset string)
    by set_solver.
  replace ({[c]} ∖ {[a; b]} : gset string) with (∅ : gset string) by set_solver.
  rewrite list_of_set_singleton, list_of_set_empty. simpl.
  by rewrite decide_True by (right; done).
Qed.

(** ** The sort of the classifier *)

Section sort_by.
Variable key : nat → Q.

Lemma insert_by_Permutation x l : insert_by key x l ≡ₚ x :: l.
Proof.
  induction l as [|y l IH]; simpl; [done|].
  destruct (decide (key y < key x)%Q); [|done].
  rewrite IH. apply Permutation_swap.
Qed.

Lemma sort_by_Permutation l : sort_by key l ≡ₚ l.
Proof.
  induction l as [|x l IH]; simpl; [done|].
  by rewrite insert_by_Permutation, IH.
Qed.

Lemma length_sort_by l : length (sort_by key l) = length l.
Proof. by rewrite sort_by_Permutation. Qed.

Lemma insert_by_sorted x l :
  StronglySorted (key_le key) l → StronglySorted (key_le key) (insert_by key x l).
Proof.
  induction 1 as [|y l Hsorted IH Hall]; simpl.
  - repeat constructor.
  - destruct (decide (key y < key x)%Q) as [Hlt|Hge].
    + constructor; [done|]. rewrite insert_by_Permutation.
      constructor; [by apply Qlt_le_weak|done].
    + apply Qnot_lt_le in Hge.
      constructor; [by constructor|]. constructor; [done|].
      eapply Forall_impl; [exact Hall|]. intros z Hz. unfold key_le in *.
      by eapply Qle_trans.
Qed.

Lemma sort_by_sorted l : StronglySorted (key_le key) (sort_by key l).
Proof.
  induction l as [|x l IH]; simpl; [constructor|by apply insert_by_sorted].
Qed.

(** The sort is stable: a list that is in order already stays as it is. *)
Lemma insert_by_least x l : Forall (key_le key x) l → insert_by key x l = x :: l.
Proof.
  destruct 1 as [|y l Hxy _]; simpl; [done|].
  rewrite decide_False; [done|]. by apply Qle_not_lt.
Qed.

Lemma sort_by_stable l : StronglySorted (key_le key) l → sort_by key l = l.
Proof.
  induction 1 as [|x l _ IH Hall]; simpl; [done|].
  by rewrite IH, insert_by_least.
Qed.
End sort_by.

Lemma sort_by_ext key key' l :
  (∀ h, key h = key' h) → sort_by key l = sort_by key' l.
Proof.
  intros Hk. induction l as [|x l IH]; simpl; [done|]. rewrite IH.
  generalize (sort_by key' l). intros l'.
  induction l' as [|y l' IH']; simpl; [done|]. by rewrite IH', !Hk.
Qed.

(** ** The classifier *)

Lemma set_player_set_player v w h : set_player v (set_player w h) = set_player v h.
Proof. done. Qed.

Lemma filter_upper_half_ext (σ σ' : store) hands :
  (∀ r, y_center (σ' r) = y_center (σ r)) →
  opponent_of σ' hands = opponent_of σ hands
  ∧ self_of σ' hands = self_of σ hands.
Proof.
  intros Hy. unfold opponent_of, self_of. split.
  - apply list_filter_iff. intros h. unfold upper_half. by rewrite Hy.
  - apply list_filter_iff. intros h. unfold upper_half. by rewrite Hy.
Qed.

(** The loop of lines 134-141 splits the hands, keeping their order, and
    writes [player] on each of them; nothing else changes. *)
Lemma assign_loop_spec hands (σ : store) opp my :
  ∃ σ' : nat → Hand,
    assign_loop hands σ opp my
    = (σ', opp ++ opponent_of σ hands, my ++ self_of σ hands)
    ∧ ∀ r, σ' r = if decide (r ∈ hands) then set_player (label_of σ r) (σ r)
                  else σ r.
Proof.
  revert σ opp my. induction hands as [|hand rest IH]; intros σ opp my.
  - exists σ. simpl. unfold opponent_of, self_of. simpl.
    by rewrite !app_nil_r.
  - simpl. set (v := label_of σ hand).
    set (σ1 := alter (set_player v) hand σ).
    assert (∀ r, y_center (σ1 r) = y_center (σ r)) as Hy.
    { intros r. unfold σ1. destruct (decide (hand = r)) as [->|Hr].
      - by rewrite fn_lookup_alter.
      - by rewrite fn_lookup_alter_ne. }
    destruct (filter_upper_half_ext σ σ1 rest Hy) as [Hfo Hfs].
    assert (∀ r, label_of σ1 r = label_of σ r) as Hlbl.
    { intros r. unfold label_of, upper_half. by rewrite Hy. }
    assert (∀ r, (if decide (r ∈ rest) then set_player (label_of σ1 r) (σ1 r)
                  else σ1 r)
                 = if decide (r ∈ hand :: rest)
                   then set_player (label_of σ r) (σ r) else σ r) as Hstore.
    { intros r. rewrite Hlbl. unfold σ1.
      destruct (decide (hand = r)) as [->|Hr].
      - rewrite fn_lookup_alter. rewrite (decide_True (P := r ∈ r :: rest))
          by left.
        destruct (decide (r ∈ rest)); done.
      - rewrite fn_lookup_alter_ne by done.
        destruct (decide (r ∈ rest)).
        + by rewrite decide_True by (by right).
        + by rewrite decide_False by set_solver. }
    unfold opponent_of, self_of in *.
    destruct (decide (y_center (σ hand) < 0.5)%Q) as [Hup|Hup].
    + replace (alter (set_player "OPPONENT") hand σ) with σ1
        by (unfold σ1, v, label_of; by rewrite decide_True).
      destruct (IH σ1 (opp ++ [hand]) my) as (σ' & -> & Hσ').
      exists σ'. split.
      * rewrite Hfo, Hfs, filter_cons_True, filter_cons_False by (by auto).
        by rewrite <- app_assoc.
      * intros r. by rewrite Hσ', Hstore.
    + replace (alter (set_player "MINE") hand σ) with σ1
        by (unfold σ1, v, label_of; by rewrite decide_False).
      destruct (IH σ1 opp (my ++ [hand])) as (σ' & -> & Hσ').
      exists σ'. split.
      * rewrite Hfo, Hfs, filter_cons_False, filter_cons_True by (by auto).
        by rewrite <- app_assoc.
      * intros r. by rewrite Hσ', Hstore.
Qed.

(** Lines 144-146 write [side] on the first two hands of [my_hands]. *)
Lemma label_sides_spec (σ : store) my r :
  same_detection (label_sides σ my r) (σ r)
  ∧ player (label_sides σ my r) = player (σ r)
  ∧ side (label_sides σ my r) =
      match my with
      | h0 :: h1 :: _ =>
          if decide (r = h1) then Some "RIGHT"
          else if decide (r = h0) then Some "LEFT" else side (σ r)
      | _ => side (σ r)
      end.
Proof.
  unfold label_sides, same_detection.
  destruct my as [|h0 [|h1 my]]; [done..|].
  destruct (decide (r = h1)) as [->|Hr1].
  { rewrite fn_lookup_alter. destruct (decide (h0 = h1)) as [->|Hne].
    - by rewrite fn_lookup_alter.
    - by rewrite fn_lookup_alter_ne. }
  rewrite fn_lookup_alter_ne by done.
  destruct (decide (r = h0)) as [->|Hr0].
  - by rewrite fn_lookup_alter.
  - by rewrite fn_lookup_alter_ne.
Qed.

(** [_assign_hands_to_players] as a whole. *)
Lemma assign_hands_spec (σ : store) hands :
  let s := _assign_hands_to_players σ hands in
  my_hands s = sort_by (λ h, x_center (σ h)) (self_of σ hands)
  ∧ opponent_hands s = sort_by (λ h, x_center (σ h)) (opponent_of σ hands)
  ∧ ∀ r,
      same_detection (heap s r) (σ r)
      ∧ player (heap s r)
        = (if decide (r ∈ hands) then Some (label_of σ r) else player (σ r))
      ∧ side (heap s r) =
          match my_hands s with
          | h0 :: h1 :: _ =>
              if decide (r = h1) then Some "RIGHT"
              else if decide (r = h0) then Some "LEFT" else side (σ r)
          | _ => side (σ r)
          end.
Proof.
  unfold _assign_hands_to_players.
  destruct (assign_loop_spec hands σ [] []) as (σ1 & -> & Hσ1). simpl.
  assert (∀ r, same_detection (σ1 r) (σ r) ∧ side (σ1 r) = side (σ r)
               ∧ player (σ1 r) = if decide (r ∈ hands) then Some (label_of σ r)
                                 else player (σ r)) as H1.
  { intros r. rewrite Hσ1. unfold same_detection. by case_decide. }
  set (my := sort_by (λ h, x_center (σ1 h)) (self_of σ hands)).
  assert (my = sort_by (λ h, x_center (σ h)) (self_of σ hands)) as Hmy.
  { apply sort_by_ext. intros h. apply H1. }
  split; [done|]. split.
  { apply sort_by_ext. intros h.
    destruct (label_sides_spec σ1 my h) as [(_ & -> & _) _]. apply H1. }
  intros r. destruct (label_sides_spec σ1 my r) as (Hd & Hp & Hs).
  destruct (H1 r) as (Hd1 & Hs1 & Hp1).
  split; [|split].
  - unfold same_detection in *. intuition congruence.
  - congruence.
  - rewrite Hs, Hs1. done.
Qed.

(** * The properties of the specification *)

(** ** [beats] *)

(** C7. [beats] is irreflexive and is the 3-cycle rock > scissors > paper >
    rock: no gesture beats itself, of two different gestures exactly one
    beats the other, and the three named pairs are in the relation. *)
Theorem beats_three_cycle :
  (∀ x, beats x x = false)
  ∧ (∀ a b, valid_gesture a → valid_gesture b → a ≠ b →
       (beats a b = true ∧ beats b a = false)
       ∨ (beats a b = false ∧ beats b a = true))
  ∧ beats "rock" "scissors" = true
  ∧ beats "scissors" "paper" = true
  ∧ beats "paper" "rock" = true.
Proof.
  split; [exact beats_irrefl|]. split; [|done].
  intros a b Ha Hb Hab.
  destruct (beats_total a b Ha Hb Hab) as [H|H].
  - left. split; [done|]. by apply beats_asym.
  - right. split; [|done]. by apply beats_asym.
Qed.

(** ** [remove_gesture] *)

(** C2, as the code has it.  For a non-empty [my_hand] that holds at most two
    different gestures, and any [opp_hand], the call returns without raising.
    Between valid gestures the result is an element of [my_hand], in the
    fallback branches too; otherwise it is an element of [my_hand] or the
    ["rock"] of the last line. *)
Theorem remove_gesture_returns_from_mine ω my_hand opp_hand :
  my_hand ≠ [] →
  (size (list_to_set my_hand : gset string) ≤ 2)%nat →
  ∃ g, value (remove_gesture ω my_hand opp_hand) = Return g
       ∧ (g ∈ my_hand
          ∨ (g = "rock"
             ∧ at_site (remove_gesture ω my_hand opp_hand) = FinalFallback))
       ∧ (Forall valid_gesture my_hand → Forall valid_gesture opp_hand →
          g ∈ my_hand).
Proof.
  intros Hne Hsize. unfold remove_gesture. cbv zeta.
  set (my_set := list_to_set my_hand : gset string) in *.
  set (opp_set := list_to_set opp_hand : gset string).
  assert (∀ x, x ∈ my_set → x ∈ my_hand) as Hmy
    by (intros x; apply elem_of_list_to_set).
  assert (∀ x, x ∈ opp_set → x ∈ opp_hand) as Hopp
    by (intros x; apply elem_of_list_to_set).
  pose proof (elem_of_list_of_set (order_common ω) (my_set ∩ opp_set)) as HC.
  pose proof (length_list_of_set (order_common ω) (my_set ∩ opp_set)) as HlC.
  pose proof (elem_of_list_of_set (order_my_unique ω) (my_set ∖ opp_set)) as HM.
  pose proof (elem_of_list_of_set (order_opp_unique ω) (opp_set ∖ my_set)) as HO.
  pose proof (elem_of_list_of_set (order_my_set ω) my_set) as HS.
  pose proof (length_list_of_set (order_my_set ω) my_set) as HlS.
  assert (size (my_set ∩ opp_set) ≤ size my_set)%nat as Hsub
    by (apply subseteq_size; set_solver).
  set (common := list_of_set (order_common ω) (my_set ∩ opp_set)) in *.
  set (my_unique := list_of_set (order_my_unique ω) (my_set ∖ opp_set)) in *.
  set (opp_unique := list_of_set (order_opp_unique ω) (opp_set ∖ my_set)) in *.
  set (pair := list_of_set (order_my_set ω) my_set) in *.
  clearbody common my_unique opp_unique pair.
  destruct (decide (length common = 2%nat)) as [Hc2|Hc2].
  { assert (length pair = 2%nat) as Hlp by lia.
    destruct pair as [|a [|b [|]]]; simplify_eq/=.
    assert (a ∈ my_hand) by (apply Hmy, HS; left).
    assert (b ∈ my_hand) by (apply Hmy, HS; right; left).
    destruct (beats a b); simpl; eauto 10. }
  destruct (decide (length common = 1%nat)) as [Hc1|Hc1].
  { destruct (decide (length my_unique ≠ 1%nat ∨ length opp_unique ≠ 1%nat))
      as [Hguard|Hguard]; simpl.
    { destruct (random_choice_elem_of (draw ω) my_hand Hne) as (x & -> & Hx).
      eauto 10. }
    destruct common as [|c [|]]; simplify_eq/=.
    destruct my_unique as [|m [|]]; try (exfalso; apply Hguard; left; done).
    destruct opp_unique as [|o [|]]; try (exfalso; apply Hguard; right; done).
    assert (m ∈ my_set ∖ opp_set) as Hm by (apply HM; left).
    assert (o ∈ opp_set ∖ my_set) as Ho by (apply HO; left).
    assert (c ∈ my_set ∩ opp_set) as Hc by (apply HC; left).
    assert (m ∈ my_hand) by (apply Hmy; set_solver).
    assert (c ∈ my_hand) by (apply Hmy; set_solver).
    destruct (beats m o) eqn:Hmo; simpl; [eauto 10|].
    destruct (beats o m) eqn:Hom; simpl; [eauto 10|].
    eexists; split; [done|]. split; [by right|].
    intros Hvm Hvo. rewrite Forall_forall in Hvm, Hvo.
    destruct (beats_total m o) as [?|?]; [by apply Hvm|apply Hvo, Hopp; set_solver
                                         |set_solver|congruence|congruence]. }
  unfold remove_gesture_tail.
  destruct (decide (length common = 0%nat)) as [Hc0|Hc0]; simpl.
  { destruct (random_choice_elem_of (draw ω) my_hand Hne) as (x & -> & Hx).
    eauto 10. }
  lia.
Qed.

Lemma remove_gesture_returns_from_mine_witness :
  ∃ g, value (remove_gesture oracle0 ["rock"; "paper"] ["scissors"; "scissors"])
       = Return g
       ∧ (g ∈ ["rock"; "paper"]
          ∨ (g = "rock"
             ∧ at_site (remove_gesture oracle0 ["rock"; "paper"]
                                       ["scissors"; "scissors"])
               = FinalFallback))
       ∧ (Forall valid_gesture ["rock"; "paper"] →
          Forall valid_gesture ["scissors"; "scissors"] →
          g ∈ ["rock"; "paper"]).
Proof.
  apply (remove_gesture_returns_from_mine oracle0 ["rock"; "paper"]
           ["scissors"; "scissors"]).
  - discriminate.
  - vm_compute. lia.
Defined.

(** C2 does not hold of every pair of lists: the last line returns ["rock"]
    to a player who holds no rock, and [random.choice] raises on an empty
    [my_hand]. *)
Lemma remove_gesture_not_always_from_mine :
  ¬ (∀ ω my_hand opp_hand,
       ∃ g, value (remove_gesture ω my_hand opp_hand) = Return g ∧ g ∈ my_hand).
Proof.
  intros H.
  destruct (H oracle0 ["paper"; "lizard"] ["paper"; "spock"]) as (g & Hg & Hin).
  vm_compute in Hg. injection Hg as <-.
  set_unfold. intuition discriminate.
Qed.

Example remove_gesture_rock_to_paper_lizard ω :
  remove_gesture ω ["paper"; "lizard"] ["paper"; "spock"]
  = mkRun FinalFallback [] (Return "rock").
Proof.
  by rewrite (remove_gesture_one_common ω _ _ "paper" "lizard" "spock")
    by (done || set_solver).
Qed.

Example remove_gesture_empty ω opp_hand :
  value (remove_gesture ω [] opp_hand) = Raise IndexError.
Proof.
  unfold remove_gesture. cbv zeta.
  replace (list_to_set [] ∩ list_to_set opp_hand : gset string)
    with (∅ : gset string) by set_solver.
  by rewrite list_of_set_empty.
Qed.

Example remove_gesture_three_in_hand :
  value (remove_gesture oracle0 ["paper"; "rock"; "scissors"] ["paper"; "rock"])
  = Raise ValueError.
Proof. by vm_compute. Qed.

(** C3, as the code has it.  When [my_hand] is twice the gesture [g] and the
    opponent's set is [{g}] too, [common] has one element, not two: the call
    takes the guard of lines 49-51, prints the warning and returns [g]. *)
Theorem remove_gesture_same_single_set ω g opp_hand :
  list_to_set opp_hand = ({[g]} : gset string) →
  remove_gesture ω [g; g] opp_hand
  = mkRun WarningFallback [WARNING] (Return g).
Proof.
  intros Hopp. rewrite remove_gesture_twice.
  apply decide_True. apply (elem_of_list_to_set (C := gset string)).
  rewrite Hopp. set_solver.
Qed.

Lemma remove_gesture_same_single_set_witness :
  remove_gesture oracle0 ["rock"; "rock"] ["rock"; "rock"]
  = mkRun WarningFallback [WARNING] (Return "rock").
Proof.
  apply (remove_gesture_same_single_set oracle0 "rock" ["rock"; "rock"]).
  apply list_to_set_twice.
Defined.

(** C3 as stated fails at its own example: the call does not end in the
    [len(common) == 2] branch, and it prints the warning. *)
Lemma remove_gesture_rock_rock_warns :
  at_site (remove_gesture oracle0 ["rock"; "rock"] ["rock"; "rock"])
  ≠ IdenticalSets
  ∧ at_site (remove_gesture oracle0 ["rock"; "rock"] ["rock"; "rock"])
    = WarningFallback
  ∧ printed (remove_gesture oracle0 ["rock"; "rock"] ["rock"; "rock"])
    = [WARNING]
  ∧ length (list_of_set [] (shared ["rock"; "rock"] ["rock"; "rock"])) = 1%nat.
Proof. by vm_compute. Qed.

(** Two sides of two gestures each that share exactly the gesture [c], with
    [m] the player's other gesture and [o] the opponent's. *)
Lemma one_common_sets my_hand opp_hand c m o :
  length my_hand = 2%nat → length opp_hand = 2%nat →
  shared my_hand opp_hand = {[c]} →
  m ∈ my_hand → m ≠ c → o ∈ opp_hand → o ≠ c →
  list_to_set my_hand = ({[c; m]} : gset string)
  ∧ list_to_set opp_hand = ({[c; o]} : gset string)
  ∧ m ≠ o.
Proof.
  unfold shared. intros Hlm Hlo Hshared Hm Hmc Ho Hoc.
  assert (c ∈ my_hand ∧ c ∈ opp_hand) as [Hcm Hco].
  { rewrite <- !(elem_of_list_to_set (C := gset string)). set_solver. }
  split; [by apply list_to_set_two|]. split; [by apply list_to_set_two|].
  intros ->. apply Hoc.
  assert (o ∈ (list_to_set my_hand ∩ list_to_set opp_hand : gset string))
    as Hin by (rewrite elem_of_intersection, !elem_of_list_to_set; done).
  rewrite Hshared in Hin. set_solver.
Qed.

(** C4, as the code has it.  Rule 2: when the two sides share exactly one
    gesture and the player's other gesture beats the opponent's other
    gesture, the call returns the player's other gesture.  The rule gives
    [remove_gesture(["scissors","rock"], ["paper","rock"]) = "scissors"].  It
    does not apply to [["rock","paper"]] against [["rock","scissors"]], where
    scissors beats paper and the result is ["rock"]. *)
Theorem remove_gesture_rule2 :
  (∀ ω my_hand opp_hand c m o,
     length my_hand = 2%nat → length opp_hand = 2%nat →
     Forall valid_gesture my_hand → Forall valid_gesture opp_hand →
     shared my_hand opp_hand = {[c]} →
     m ∈ my_hand → m ≠ c → o ∈ opp_hand → o ≠ c →
     beats m o = true →
     remove_gesture ω my_hand opp_hand = mkRun Rule2 [] (Return m))
  ∧ (∀ ω, value (remove_gesture ω ["scissors"; "rock"] ["paper"; "rock"])
          = Return "scissors")
  ∧ (∀ ω, value (remove_gesture ω ["rock"; "paper"] ["rock"; "scissors"])
          = Return "rock").
Proof.
  split; [|split].
  - intros ω my_hand opp_hand c m o Hlm Hlo _ _ Hshared Hm Hmc Ho Hoc Hbeats.
    destruct (one_common_sets my_hand opp_hand c m o) as (Hms & Hos & Hmo);
      [done..|].
    by rewrite (remove_gesture_one_common ω _ _ c m o), Hbeats.
  - intros ω.
    by rewrite (remove_gesture_one_common ω _ _ "rock" "scissors" "paper")
      by (done || set_solver).
  - intros ω.
    by rewrite (remove_gesture_one_common ω _ _ "rock" "paper" "scissors")
      by (done || set_solver).
Qed.

Lemma remove_gesture_rule2_witness :
  remove_gesture oracle0 ["scissors"; "rock"] ["paper"; "rock"]
  = mkRun Rule2 [] (Return "scissors").
Proof.
  apply (proj1 remove_gesture_rule2 oracle0 ["scissors"; "rock"]
           ["paper"; "rock"] "rock" "scissors" "paper");
    try done; try (by vm_compute).
  - unfold valid_gesture, GESTURES. repeat constructor; set_solver.
  - unfold valid_gesture, GESTURES. repeat constructor; set_solver.
  - set_solver.
  - set_solver.
Defined.

(** The instance C4 gives is not an instance of Rule 2. *)
Lemma remove_gesture_rock_paper_vs_rock_scissors :
  value (remove_gesture oracle0 ["rock"; "paper"] ["rock"; "scissors"])
  = Return "rock"
  ∧ value (remove_gesture oracle0 ["rock"; "paper"] ["rock"; "scissors"])
    ≠ Return "paper"
  ∧ beats "paper" "scissors" = false.
Proof. by vm_compute. Qed.

(** C5, as the code has it.  Rule 4: when the two sides share exactly one
    gesture and the opponent's other gesture beats the player's other
    gesture, the call returns the shared gesture.  The rule gives
    [remove_gesture(["rock","paper"], ["rock","scissors"]) = "rock"].  It does
    not apply to [["scissors","rock"]] against [["paper","rock"]], where
    scissors beats paper and the result is ["scissors"]. *)
Theorem remove_gesture_rule4 :
  (∀ ω my_hand opp_hand c m o,
     length my_hand = 2%nat → length opp_hand = 2%nat →
     Forall valid_gesture my_hand → Forall valid_gesture opp_hand →
     shared my_hand opp_hand = {[c]} →
     m ∈ my_hand → m ≠ c → o ∈ opp_hand → o ≠ c →
     beats o m = true →
     remove_gesture ω my_hand opp_hand = mkRun Rule4 [] (Return c))
  ∧ (∀ ω, value (remove_gesture ω ["rock"; "paper"] ["rock"; "scissors"])
          = Return "rock")
  ∧ (∀ ω, value (remove_gesture ω ["scissors"; "rock"] ["paper"; "rock"])
          = Return "scissors").
Proof.
  split; [|split].
  - intros ω my_hand opp_hand c m o Hlm Hlo _ _ Hshared Hm Hmc Ho Hoc Hbeats.
    destruct (one_common_sets my_hand opp_hand c m o) as (Hms & Hos & Hmo);
      [done..|].
    by rewrite (remove_gesture_one_common ω _ _ c m o), (beats_asym o m), Hbeats.
  - intros ω.
    by rewrite (remove_gesture_one_common ω _ _ "rock" "paper" "scissors")
      by (done || set_solver).
  - intros ω.
    by rewrite (remove_gesture_one_common ω _ _ "rock" "scissors" "paper")
      by (done || set_solver).
Qed.

Lemma remove_gesture_rule4_witness :
  remove_gesture oracle0 ["rock"; "paper"] ["rock"; "scissors"]
  = mkRun Rule4 [] (Return "rock").
Proof.
  apply (proj1 remove_gesture_rule4 oracle0 ["rock"; "paper"]
           ["rock"; "scissors"] "rock" "paper" "scissors");
    try done; try (by vm_compute).
  - unfold valid_gesture, GESTURES. repeat constructor; set_solver.
  - unfold valid_gesture, GESTURES. repeat constructor; set_solver.
  - set_solver.
  - set_solver.
Defined.

(** The instance C5 gives is not an instance of Rule 4. *)
Lemma remove_gesture_scissors_rock_vs_paper_rock :
  value (remove_gesture oracle0 ["scissors"; "rock"] ["paper"; "rock"])
  = Return "scissors"
  ∧ value (remove_gesture oracle0 ["scissors"; "rock"] ["paper"; "rock"])
    ≠ Return "rock"
  ∧ beats "paper" "scissors" = false.
Proof. by vm_compute. Qed.

(** C6. When both sides are two-element lists of the same two different valid
    gestures [a] and [b], the call returns the one of them that the other
    beats. *)
Theorem remove_gesture_same_pair ω my_hand opp_hand a b :
  length my_hand = 2%nat → length opp_hand = 2%nat →
  valid_gesture a → valid_gesture b → a ≠ b →
  list_to_set my_hand = ({[a; b]} : gset string) →
  list_to_set opp_hand = ({[a; b]} : gset string) →
  (beats a b = true ∧ value (remove_gesture ω my_hand opp_hand) = Return b)
  ∨ (beats b a = true ∧ value (remove_gesture ω my_hand opp_hand) = Return a).
Proof.
  intros _ _ Ha Hb Hab Hm Ho.
  destruct (beats_total a b Ha Hb Hab) as [H|H]; [left|right]; split; try done.
  - by rewrite (remove_gesture_identical ω _ _ a b).
  - rewrite (remove_gesture_identical ω _ _ b a); [done| | |done].
    + rewrite Hm. set_solver.
    + rewrite Ho. set_solver.
Qed.

Lemma remove_gesture_same_pair_witness :
  (beats "rock" "scissors" = true
   ∧ value (remove_gesture oracle0 ["rock"; "scissors"] ["rock"; "scissors"])
     = Return "scissors")
  ∨ (beats "scissors" "rock" = true
     ∧ value (remove_gesture oracle0 ["rock"; "scissors"] ["rock"; "scissors"])
       = Return "rock").
Proof.
  apply (remove_gesture_same_pair oracle0 ["rock"; "scissors"]
           ["rock"; "scissors"] "rock" "scissors"); try done.
  - unfold valid_gesture, GESTURES. set_solver.
  - unfold valid_gesture, GESTURES. set_solver.
Defined.

Example remove_gesture_rock_scissors_twice ω :
  value (remove_gesture ω ["rock"; "scissors"] ["rock"; "scissors"])
  = Return "scissors".
Proof.
  by rewrite (remove_gesture_identical ω _ _ "rock" "scissors")
    by (done || apply list_to_set_pair).
Qed.

(** C10. A player who shows the gesture [g] twice gets [g] back, whatever the
    opponent shows: both [random.choice] statements draw from [[g, g]]. *)
Theorem remove_gesture_identical_hand ω g opp_hand :
  valid_gesture g → (length opp_hand ≤ 2)%nat → Forall valid_gesture opp_hand →
  value (remove_gesture ω [g; g] opp_hand) = Return g.
Proof. intros _ _ _. rewrite remove_gesture_twice. by case_decide. Qed.

Lemma remove_gesture_identical_hand_witness :
  value (remove_gesture (mkOracle [] [] [] [] 1) ["paper"; "paper"]
                        ["rock"; "scissors"])
  = Return "paper".
Proof.
  apply (remove_gesture_identical_hand (mkOracle [] [] [] [] 1) "paper"
           ["rock"; "scissors"]).
  - unfold valid_gesture, GESTURES. set_solver.
  - simpl. lia.
  - unfold valid_gesture, GESTURES. repeat constructor; set_solver.
Defined.

(** C9, as the code has it.  Two calls on the same two-element lists of valid
    gestures that share one or two gestures give the same result, whatever the
    enumeration orders and the draws, unless the player's two gestures differ
    while the opponent's two are the same.  In that last case the guard of
    lines 49-51 fires and [random.choice] can return either gesture of the
    player. *)
Theorem remove_gesture_deterministic :
  (∀ ω1 ω2 a b c d,
     Forall valid_gesture [a; b] → Forall valid_gesture [c; d] →
     (1 ≤ size (shared [a; b] [c; d]) ≤ 2)%nat →
     a = b ∨ c ≠ d →
     remove_gesture ω1 [a; b] [c; d] = remove_gesture ω2 [a; b] [c; d])
  ∧ (∀ a b c,
       Forall valid_gesture [a; b] → a ≠ b → c = a ∨ c = b →
       size (shared [a; b] [c; c]) = 1%nat
       ∧ (∀ ω, remove_gesture ω [a; b] [c; c]
               = mkRun WarningFallback [WARNING]
                   (random_choice (draw ω) [a; b]))
       ∧ value (remove_gesture (mkOracle [] [] [] [] 0) [a; b] [c; c]) = Return a
       ∧ value (remove_gesture (mkOracle [] [] [] [] 1) [a; b] [c; c]) = Return b).
Proof.
  split.
  - intros ω1 ω2 a b c d Hv1 Hv2 Hsize Hcase.
    destruct (decide (a = b)) as [->|Hab].
    { by rewrite !remove_gesture_twice. }
    destruct Hcase as [?|Hcd]; [done|].
    apply Forall_cons in Hv1 as [Ha Hv1]. apply Forall_cons in Hv1 as [Hb _].
    unfold shared in Hsize.
    destruct (decide (a = c)) as [<-|Hac].
    { destruct (decide (b = d)) as [<-|Hbd].
      - destruct (beats_total a b Ha Hb Hab) as [H|H].
        + by rewrite !(remove_gesture_identical _ _ _ a b)
            by (done || apply list_to_set_pair).
        + by rewrite !(remove_gesture_identical _ _ _ b a)
            by (done || set_solver).
      - by rewrite !(remove_gesture_one_common _ _ _ a b d)
          by (done || set_solver). }
    destruct (decide (a = d)) as [<-|Had].
    { destruct (decide (b = c)) as [<-|Hbc].
      - destruct (beats_total a b Ha Hb Hab) as [H|H].
        + by rewrite !(remove_gesture_identical _ _ _ a b)
            by (done || set_solver).
        + by rewrite !(remove_gesture_identical _ _ _ b a)
            by (done || set_solver).
      - by rewrite !(remove_gesture_one_common _ _ _ a b c)
          by (done || set_solver). }
    destruct (decide (b = c)) as [<-|Hbc].
    { by rewrite !(remove_gesture_one_common _ _ _ b a d)
        by (done || set_solver). }
    destruct (decide (b = d)) as [<-|Hbd].
    { by rewrite !(remove_gesture_one_common _ _ _ b a c)
        by (done || set_solver). }
    replace (list_to_set [a; b] ∩ list_to_set [c; d] : gset string)
      with (∅ : gset string) in Hsize by set_solver.
    rewrite size_empty in Hsize. lia.
  - intros a b c _ Hab Hc.
    assert (∀ ω, remove_gesture ω [a; b] [c; c]
                 = mkRun WarningFallback [WARNING]
                     (random_choice (draw ω) [a; b])) as Hrun.
    { intros ω. apply (remove_gesture_opp_twice ω _ _ a b c);
        [apply list_to_set_pair|apply list_to_set_twice|done..]. }
    split; [|split; [done|by rewrite !Hrun]].
    unfold shared. rewrite list_to_set_pair, list_to_set_twice.
    replace ({[a; b]} ∩ {[c]} : gset string) with ({[c]} : gset string)
      by set_solver.
    apply size_singleton.
Qed.

Lemma remove_gesture_deterministic_witness :
  remove_gesture (mkOracle [1] [] [] [1] 0) ["rock"; "paper"] ["scissors"; "rock"]
  = remove_gesture (mkOracle [] [] [] [] 1) ["rock"; "paper"] ["scissors"; "rock"].
Proof.
  apply (proj1 remove_gesture_deterministic (mkOracle [1] [] [] [1] 0)
           (mkOracle [] [] [] [] 1) "rock" "paper" "scissors" "rock").
  - unfold valid_gesture, GESTURES. repeat constructor; set_solver.
  - unfold valid_gesture, GESTURES. repeat constructor; set_solver.
  - vm_compute. lia.
  - right. discriminate.
Defined.

(** C9 as stated fails: the sets of [["rock","paper"]] and [["rock","rock"]]
    share one gesture, and two calls give different results. *)
Lemma remove_gesture_varies_with_one_common :
  ¬ (∀ ω1 ω2 a b c d,
       Forall valid_gesture [a; b] → Forall valid_gesture [c; d] →
       (1 ≤ size (shared [a; b] [c; d]) ≤ 2)%nat →
       value (remove_gesture ω1 [a; b] [c; d])
       = value (remove_gesture ω2 [a; b] [c; d])).
Proof.
  intros H.
  specialize (H (mkOracle [] [] [] [] 0) (mkOracle [] [] [] [] 1)
                "rock" "paper" "rock" "rock").
  assert (Return "rock" = Return "paper" :> result string) as Heq; [|done].
  apply H.
  - unfold valid_gesture, GESTURES. repeat constructor; set_solver.
  - unfold valid_gesture, GESTURES. repeat constructor; set_solver.
  - vm_compute. lia.
Qed.

(** ** [solve] *)

Lemma count_mismatch_not_instruction n m my0 my1 opp0 opp1 g side :
  Return (count_mismatch_message n m)
  ≠ Return (result_message my0 my1 opp0 opp1 g side).
Proof.
  intros H.
  apply (f_equal (λ r, match r with
                       | Return s => first_char s
                       | Raise _ => None
                       end)) in H.
  discriminate H.
Qed.

(** The count message names its two numbers: they can be read back. *)
Lemma pretty_N_char_spaceless x : pretty_N_char x ≠ " "%char.
Proof. unfold pretty_N_char. by repeat case_match. Qed.

Lemma pretty_N_go_spaceless x s : spaceless s → spaceless (pretty_N_go x s).
Proof.
  revert s. induction (N.lt_wf_0 x) as [x _ IH]; intros s Hs.
  destruct (decide (x = 0%N)) as [->|Hx]; [by rewrite pretty_N_go_0|].
  rewrite pretty_N_go_step by lia. apply IH.
  - apply N.div_lt; lia.
  - split; [apply pretty_N_char_spaceless|done].
Qed.

Lemma pretty_nat_spaceless (n : nat) : spaceless (pretty n).
Proof.
  unfold pretty, pretty_nat, pretty, pretty_N.
  case_decide; [by split|]. by apply pretty_N_go_spaceless.
Qed.

Lemma append_inv_head p s1 s2 : p +:+ s1 = p +:+ s2 → s1 = s2.
Proof. induction p as [|c p IH]; simpl; [done|]. intros [= H]. by apply IH. Qed.

Lemma spaceless_split s1 s2 r1 r2 :
  spaceless s1 → spaceless s2 →
  s1 +:+ String " " r1 = s2 +:+ String " " r2 → s1 = s2 ∧ r1 = r2.
Proof.
  revert s2. induction s1 as [|c s1 IH]; intros [|c' s2]; simpl.
  - by intros _ _ [= ->].
  - intros _ [Hc _] [= <- _]. done.
  - intros [Hc _] _ [= -> _]. done.
  - intros [_ Hs1] [_ Hs2] [= -> H]. by destruct (IH s2 Hs1 Hs2 H) as [-> ->].
Qed.

Lemma count_mismatch_message_inj n m n' m' :
  count_mismatch_message n m = count_mismatch_message n' m' →
  n = n' ∧ m = m'.
Proof.
  unfold count_mismatch_message. intros H.
  apply append_inv_head in H.
  apply (spaceless_split (pretty n) (pretty n')) in H
    as [Hn H]; [|apply pretty_nat_spaceless..].
  apply (append_inv_head "opponent hand(s) and ") in H.
  apply (spaceless_split (pretty m) (pretty m')) in H
    as [Hm _]; [|apply pretty_nat_spaceless..].
  split; by apply (inj pretty).
Qed.

(** The counts [solve] looks at are those of the hands below and above the
    middle of the frame. *)
Lemma assign_hands_counts (σ : store) hands :
  length (opponent_hands (_assign_hands_to_players σ hands))
  = length (opponent_of σ hands)
  ∧ length (my_hands (_assign_hands_to_players σ hands))
    = length (self_of σ hands).
Proof.
  destruct (assign_hands_spec σ hands) as (-> & -> & _).
  by rewrite !length_sort_by.
Qed.

Lemma solve_too_few ω (σ : store) hands :
  (length (opponent_of σ hands) < 2 ∨ length (self_of σ hands) < 2)%nat →
  answer (solve ω σ hands)
  = Return (count_mismatch_message (length (opponent_of σ hands))
                                   (length (self_of σ hands)))
  ∧ output (solve ω σ hands) = [].
Proof.
  intros Hfew. unfold solve.
  destruct (assign_hands_counts σ hands) as [-> ->].
  by rewrite decide_True.
Qed.

(** C1, as the code has it.  When fewer than two OPPONENT hands or fewer than
    two SELF hands are found, [solve] returns the count message, which names
    the number of OPPONENT hands and the number of SELF hands and no other
    numbers, prints nothing and returns no removal instruction. *)
Theorem solve_count_mismatch ω (σ : store) hands :
  (length (opponent_of σ hands) < 2 ∨ length (self_of σ hands) < 2)%nat →
  answer (solve ω σ hands)
  = Return (count_mismatch_message (length (opponent_of σ hands))
                                   (length (self_of σ hands)))
  ∧ (∀ n m, answer (solve ω σ hands) = Return (count_mismatch_message n m) →
            n = length (opponent_of σ hands) ∧ m = length (self_of σ hands))
  ∧ output (solve ω σ hands) = []
  ∧ ∀ my0 my1 opp0 opp1 g side,
      answer (solve ω σ hands)
      ≠ Return (result_message my0 my1 opp0 opp1 g side).
Proof.
  intros Hfew. destruct (solve_too_few ω σ hands Hfew) as [Hans Hout].
  split; [done|]. split; [|split; [done|]].
  - intros n m. rewrite Hans. intros H.
    assert (count_mismatch_message (length (opponent_of σ hands))
                                   (length (self_of σ hands))
            = count_mismatch_message n m) as Hmsg by congruence.
    by apply count_mismatch_message_inj in Hmsg as [-> ->].
  - intros my0 my1 opp0 opp1 g side. rewrite Hans.
    apply count_mismatch_not_instruction.
Qed.

Lemma solve_count_mismatch_witness :
  answer (solve oracle0 (store_of three_hands) [0; 1; 2]%nat)
  = Return (count_mismatch_message 1 2)
  ∧ (∀ n m, answer (solve oracle0 (store_of three_hands) [0; 1; 2]%nat)
            = Return (count_mismatch_message n m) →
            n = 1%nat ∧ m = 2%nat)
  ∧ output (solve oracle0 (store_of three_hands) [0; 1; 2]%nat) = []
  ∧ ∀ my0 my1 opp0 opp1 g side,
      answer (solve oracle0 (store_of three_hands) [0; 1; 2]%nat)
      ≠ Return (result_message my0 my1 opp0 opp1 g side).
Proof.
  apply (solve_count_mismatch oracle0 (store_of three_hands) [0; 1; 2]%nat).
  left. vm_compute. lia.
Defined.

(** C1 as stated fails for more than two hands: with three SELF hands [solve]
    goes on and returns a removal instruction. *)
Lemma solve_three_self_hands :
  length (self_of (store_of five_hands) [0; 1; 2; 3; 4]%nat) = 3%nat
  ∧ length (opponent_of (store_of five_hands) [0; 1; 2; 3; 4]%nat) = 2%nat
  ∧ answer (solve oracle0 (store_of five_hands) [0; 1; 2; 3; 4]%nat)
    = Return (result_message "rock" "paper" "rock" "scissors" "rock" "LEFT")
  ∧ ∀ n m, answer (solve oracle0 (store_of five_hands) [0; 1; 2; 3; 4]%nat)
           ≠ Return (count_mismatch_message n m).
Proof.
  assert (answer (solve oracle0 (store_of five_hands) [0; 1; 2; 3; 4]%nat)
          = Return (result_message "rock" "paper" "rock" "scissors" "rock" "LEFT"))
    as Hans by (by vm_compute).
  split; [by vm_compute|]. split; [by vm_compute|]. split; [done|].
  intros n m. rewrite Hans. intros H. symmetry in H. revert H.
  apply count_mismatch_not_instruction.
Qed.

(** ** The classifier *)

Lemma my_hands_Permutation (σ : store) hands :
  my_hands (_assign_hands_to_players σ hands) ≡ₚ self_of σ hands.
Proof.
  destruct (assign_hands_spec σ hands) as (-> & _). apply sort_by_Permutation.
Qed.

Lemma opponent_hands_Permutation (σ : store) hands :
  opponent_hands (_assign_hands_to_players σ hands) ≡ₚ opponent_of σ hands.
Proof.
  destruct (assign_hands_spec σ hands) as (_ & -> & _). apply sort_by_Permutation.
Qed.

(** Every hand of the list gets its [player]. *)
Lemma assign_hands_player (σ : store) hands h :
  h ∈ hands →
  player (heap (_assign_hands_to_players σ hands) h) = Some (label_of σ h).
Proof.
  intros Hin. destruct (assign_hands_spec σ hands) as (_ & _ & Hheap).
  destruct (Hheap h) as (_ & -> & _). by rewrite decide_True.
Qed.

(** A hand that is not among the first two of [my_hands] keeps its [side]. *)
Lemma assign_hands_side_kept (σ : store) hands h :
  h ∉ take 2 (my_hands (_assign_hands_to_players σ hands)) →
  side (heap (_assign_hands_to_players σ hands) h) = side (σ h).
Proof.
  intros Hnot. destruct (assign_hands_spec σ hands) as (_ & _ & Hheap).
  destruct (Hheap h) as (_ & _ & ->).
  destruct (my_hands _) as [|h0 [|h1 rest]]; [done..|]. simpl in Hnot.
  rewrite !decide_False by set_solver. done.
Qed.

(** With two SELF hands or more, the first two of [my_hands] are labelled, and
    they are the two leftmost SELF hands. *)
Lemma assign_hands_sides (σ : store) hands :
  NoDup hands → (2 ≤ length (self_of σ hands))%nat →
  ∃ l r rest,
    my_hands (_assign_hands_to_players σ hands) = l :: r :: rest
    ∧ side (heap (_assign_hands_to_players σ hands) l) = Some "LEFT"
    ∧ side (heap (_assign_hands_to_players σ hands) r) = Some "RIGHT"
    ∧ (x_center (σ l) <= x_center (σ r))%Q
    ∧ Forall (λ h, (x_center (σ r) <= x_center (σ h))%Q) rest.
Proof.
  intros Hnodup Hlen.
  pose proof (my_hands_Permutation σ hands) as Hperm.
  assert (NoDup (my_hands (_assign_hands_to_players σ hands))) as Hnd.
  { rewrite Hperm. by apply NoDup_filter. }
  destruct (assign_hands_spec σ hands) as (Hmy & _ & Hheap).
  pose proof (sort_by_sorted (λ h, x_center (σ h)) (self_of σ hands)) as Hsorted.
  rewrite <- Hmy in Hsorted. rewrite <- Hperm in Hlen.
  destruct (my_hands _) as [|l [|r rest]] eqn:Heq; simpl in Hlen; [lia..|].
  exists l, r, rest. split; [done|].
  apply NoDup_cons in Hnd as [Hl _].
  apply StronglySorted_inv in Hsorted as [Hsorted Hall_l].
  apply StronglySorted_inv in Hsorted as [_ Hall_r].
  apply Forall_cons in Hall_l as [Hlr _].
  split; [|split; [|done]].
  - destruct (Hheap l) as (_ & _ & ->).
    rewrite decide_False by set_solver. by rewrite decide_True.
  - destruct (Hheap r) as (_ & _ & ->). by rewrite decide_True.
Qed.

(** C8. The classifier labels every hand above the middle of the frame
    ([y_center < 0.5]) OPPONENT and every other hand MINE, the SELF label of
    the code.  [opponent_hands] and [my_hands] hold the two groups.  With two
    SELF hands or more, the SELF hand with the smallest [x_center] gets LEFT
    and the one with the smallest [x_center] of the others gets RIGHT.  The
    [side] of an OPPONENT hand is not written.  For [y_center] values 0.2,
    0.3, 0.7 and 0.8 the first two hands are OPPONENT and the last two SELF,
    and LEFT goes to the SELF hand with the smaller [x_center]. *)
Theorem classifier_labels (σ : store) hands :
  NoDup hands →
  let s := _assign_hands_to_players σ hands in
  (∀ h, h ∈ hands →
     (upper_half σ h → player (heap s h) = Some "OPPONENT")
     ∧ (¬ upper_half σ h → player (heap s h) = Some "MINE"))
  ∧ opponent_hands s ≡ₚ opponent_of σ hands
  ∧ my_hands s ≡ₚ self_of σ hands
  ∧ ((2 ≤ length (self_of σ hands))%nat →
     ∃ l r rest,
       my_hands s = l :: r :: rest
       ∧ side (heap s l) = Some "LEFT"
       ∧ side (heap s r) = Some "RIGHT"
       ∧ (x_center (σ l) <= x_center (σ r))%Q
       ∧ Forall (λ h, (x_center (σ r) <= x_center (σ h))%Q) rest)
  ∧ (∀ h, h ∈ hands → upper_half σ h → side (heap s h) = side (σ h))
  ∧ (∀ a b c d,
       hands = [a; b; c; d] →
       (y_center (σ a) == 0.2)%Q → (y_center (σ b) == 0.3)%Q →
       (y_center (σ c) == 0.7)%Q → (y_center (σ d) == 0.8)%Q →
       player (heap s a) = Some "OPPONENT"
       ∧ player (heap s b) = Some "OPPONENT"
       ∧ player (heap s c) = Some "MINE"
       ∧ player (heap s d) = Some "MINE"
       ∧ ((x_center (σ c) < x_center (σ d))%Q →
          side (heap s c) = Some "LEFT" ∧ side (heap s d) = Some "RIGHT")
       ∧ ((x_center (σ d) < x_center (σ c))%Q →
          side (heap s d) = Some "LEFT" ∧ side (heap s c) = Some "RIGHT")).
Proof.
  intros Hnodup s.
  assert (∀ h, h ∈ hands →
            (upper_half σ h → player (heap s h) = Some "OPPONENT")
            ∧ (¬ upper_half σ h → player (heap s h) = Some "MINE")) as Hplayer.
  { intros h Hin. unfold s. rewrite assign_hands_player by done.
    unfold label_of. split; intros Hup.
    - by rewrite decide_True.
    - by rewrite decide_False. }
  split; [done|].
  split; [apply opponent_hands_Permutation|].
  split; [apply my_hands_Permutation|].
  split; [by apply assign_hands_sides|].
  split.
  { intros h Hin Hup. apply assign_hands_side_kept. intros Hh.
    assert (h ∈ self_of σ hands) as Hself.
    { rewrite <- my_hands_Permutation. by eapply subseteq_take. }
    apply list_elem_of_filter in Hself as [Hnot _]. done. }
  intros a b c d -> Ha Hb Hc Hd.
  assert (upper_half σ a) as Hua by (unfold upper_half; by rewrite Ha).
  assert (upper_half σ b) as Hub by (unfold upper_half; by rewrite Hb).
  assert (¬ upper_half σ c) as Huc by (unfold upper_half; by rewrite Hc).
  assert (¬ upper_half σ d) as Hud by (unfold upper_half; by rewrite Hd).
  split; [apply Hplayer; [set_solver|done]|].
  split; [apply Hplayer; [set_solver|done]|].
  split; [apply Hplayer; [set_solver|done]|].
  split; [apply Hplayer; [set_solver|done]|].
  assert (self_of σ [a; b; c; d] = [c; d]) as Hself.
  { unfold self_of. rewrite filter_cons_False by auto.
    rewrite filter_cons_False by auto. rewrite filter_cons_True by auto.
    by rewrite filter_cons_True by auto. }
  destruct (assign_hands_sides σ [a; b; c; d] Hnodup)
    as (l & r & rest & Hmy & Hl & Hr & Hlr & _).
  { by rewrite Hself. }
  pose proof (my_hands_Permutation σ [a; b; c; d]) as Hperm.
  rewrite Hmy, Hself in Hperm.
  assert (rest = []) as ->.
  { apply Permutation_length in Hperm. simpl in Hperm.
    destruct rest; [done|simpl in Hperm; lia]. }
  apply Permutation_pair_inv in Hperm as [[= -> ->]|[= -> ->]].
  - split; [done|]. intros Hlt. by apply Qlt_not_le in Hlt.
  - split; [|done]. intros Hlt. by apply Qlt_not_le in Hlt.
Qed.

Lemma classifier_labels_witness :
  let s := _assign_hands_to_players (store_of four_hands) [0; 1; 2; 3]%nat in
  player (heap s 0%nat) = Some "OPPONENT"
  ∧ player (heap s 1%nat) = Some "OPPONENT"
  ∧ player (heap s 2%nat) = Some "MINE"
  ∧ player (heap s 3%nat) = Some "MINE"
  ∧ side (heap s 3%nat) = Some "LEFT"
  ∧ side (heap s 2%nat) = Some "RIGHT"
  ∧ side (heap s 0%nat) = None
  ∧ side (heap s 1%nat) = None.
Proof.
  intros s. subst s.
  assert (NoDup [0; 1; 2; 3]%nat) as Hnodup
    by (apply (bool_decide_unpack (NoDup [0; 1; 2; 3]%nat)); by vm_compute).
  destruct (classifier_labels (store_of four_hands) [0; 1; 2; 3]%nat Hnodup)
    as (_ & _ & _ & _ & Hopp & Hexample).
  destruct (Hexample 0 1 2 3)%nat as (H0 & H1 & H2 & H3 & _ & Hleft);
    [reflexivity..|].
  destruct Hleft as [Hl Hr]; [reflexivity|].
  repeat (split; [assumption|]).
  split.
  - rewrite (Hopp 0%nat); [reflexivity|set_solver|reflexivity].
  - rewrite (Hopp 1%nat); [reflexivity|set_solver|reflexivity].
Defined.

Example classifier_run :
  let s := _assign_hands_to_players (store_of four_hands) [0; 1; 2; 3]%nat in
  opponent_hands s = [0; 1]%nat ∧ my_hands s = [3; 2]%nat
  ∧ heap s 3%nat = mkHand 0 0.3 0.8 0.1 0.1 (Some "MINE") (Some "LEFT").
Proof. by vm_compute. Qed.

(** The same [Hand] object listed twice is one hand: it gets LEFT and then
    RIGHT, which is why the classifier is stated for lists of different
    objects. *)
Example classifier_aliased :
  let s := _assign_hands_to_players (store_of four_hands) [2; 2]%nat in
  my_hands s = [2; 2]%nat ∧ side (heap s 2%nat) = Some "RIGHT".
Proof. by vm_compute. Qed.

(** * More about the code *)

(** ** [remove_gesture]: when it raises, and what it returns *)

(** The lists a call builds, with what is known of each. *)
Ltac remove_gesture_lists ω my_hand opp_hand :=
  unfold remove_gesture, shared in *; cbv zeta;
  pose proof (λ x, proj1 (elem_of_list_to_set (C := gset string) x my_hand))
    as Hmy;
  pose proof (λ x, proj1 (elem_of_list_to_set (C := gset string) x opp_hand))
    as Hopp;
  pose proof (elem_of_list_of_set (order_common ω)
                (list_to_set my_hand ∩ list_to_set opp_hand)) as HC;
  pose proof (length_list_of_set (order_common ω)
                (list_to_set my_hand ∩ list_to_set opp_hand)) as HlC;
  pose proof (elem_of_list_of_set (order_my_unique ω)
                (list_to_set my_hand ∖ list_to_set opp_hand)) as HM;
  pose proof (elem_of_list_of_set (order_opp_unique ω)
                (list_to_set opp_hand ∖ list_to_set my_hand)) as HO;
  pose proof (elem_of_list_of_set (order_my_set ω) (list_to_set my_hand)) as HS;
  pose proof (length_list_of_set (order_my_set ω) (list_to_set my_hand)) as HlS;
  assert (size (list_to_set my_hand ∩ list_to_set opp_hand : gset string)
          ≤ size (list_to_set my_hand : gset string))%nat as Hsub
    by (apply subseteq_size; set_solver);
  set (common := list_of_set (order_common ω)
                   (list_to_set my_hand ∩ list_to_set opp_hand)) in *;
  set (my_unique := list_of_set (order_my_unique ω)
                      (list_to_set my_hand ∖ list_to_set opp_hand)) in *;
  set (opp_unique := list_of_set (order_opp_unique ω)
                       (list_to_set opp_hand ∖ list_to_set my_hand)) in *;
  set (pair := list_of_set (order_my_set ω) (list_to_set my_hand)) in *;
  clearbody common my_unique opp_unique pair.

Lemma size_list_to_set_nil_iff (l : list string) :
  size (list_to_set l : gset string) = 0%nat ↔ l = [].
Proof.
  split; [|by intros ->].
  intros H. apply size_empty_inv in H. destruct l as [|x l]; [done|].
  exfalso. set_solver.
Qed.

(** A call raises in two situations only: [random.choice] on an empty
    [my_hand], and the unpacking of line 40 when [my_hand] holds three
    gestures or more of which the opponent shows exactly two. *)
Lemma remove_gesture_raise_iff ω my_hand opp_hand e :
  value (remove_gesture ω my_hand opp_hand) = Raise e ↔
    (e = IndexError ∧ my_hand = [])
    ∨ (e = ValueError ∧ size (shared my_hand opp_hand) = 2%nat
       ∧ (2 < size (list_to_set my_hand : gset string))%nat).
Proof.
  assert (my_hand = [] →
          size (list_to_set my_hand ∩ list_to_set opp_hand : gset string)
          = 0%nat) as Hnil.
  { intros ->. apply size_empty_iff. set_solver. }
  remove_gesture_lists ω my_hand opp_hand.
  destruct (decide (length common = 2%nat)) as [Hc2|Hc2].
  { destruct pair as [|a [|b [|c pair]]]; simpl in *; try lia.
    - split; [by destruct (beats a b)|].
      intros [[_ Hn]|(_ & _ & ?)]; [apply Hnil in Hn|]; lia.
    - split.
      + intros [= <-]. right. split; [done|]. split; lia.
      + intros [[_ Hn]|(-> & _)]; [apply Hnil in Hn; lia|done]. }
  assert (∀ r, length common ≠ 0%nat →
               ∃ x, random_choice r my_hand = Return x) as Hchoice.
  { intros r Hne.
    destruct (random_choice_elem_of r my_hand) as (x & Hx & _); [|by eauto].
    intros Hn. apply Hnil in Hn. lia. }
  destruct (decide (length common = 1%nat)) as [Hc1|Hc1].
  { assert (∀ r : run, (∃ g, value r = Return g) →
              value r = Raise e ↔
                (e = IndexError ∧ my_hand = [])
                ∨ (e = ValueError ∧ size (list_to_set my_hand
                                          ∩ list_to_set opp_hand : gset string)
                                    = 2%nat
                   ∧ (2 < size (list_to_set my_hand : gset string))%nat))
      as Hret.
    { intros r [g Hg]. rewrite Hg. split; [done|].
      intros [[_ Hn]|(_ & ? & _)]; [apply Hnil in Hn|]; lia. }
    destruct (decide (length my_unique ≠ 1%nat ∨ length opp_unique ≠ 1%nat))
      as [Hguard|Hguard].
    { apply Hret. simpl. apply Hchoice. lia. }
    destruct common as [|c [|]]; simplify_eq/=.
    destruct my_unique as [|m [|]]; try (exfalso; apply Hguard; left; done).
    destruct opp_unique as [|o [|]]; try (exfalso; apply Hguard; right; done).
    destruct (beats m o); [apply Hret; simpl; by eauto|].
    destruct (beats o m); apply Hret; simpl; by eauto. }
  unfold remove_gesture_tail.
  destruct (decide (length common = 0%nat)) as [Hc0|Hc0]; simpl.
  - destruct my_hand as [|x my_hand].
    + split; [intros [= <-]; by left|]. by intros [[-> _]|(_ & ? & _)]; [|lia].
    + destruct (random_choice_elem_of (draw ω) (x :: my_hand)) as (y & -> & _);
        [done|].
      split; [done|]. intros [[_ ?]|(_ & ? & _)]; [done|lia].
  - split; [done|]. intros [[_ Hn]|(_ & ? & _)]; [apply Hnil in Hn|]; lia.
Qed.

(** What a call returns comes from [my_hand], except at the last line. *)
Lemma remove_gesture_value_in ω my_hand opp_hand g :
  value (remove_gesture ω my_hand opp_hand) = Return g →
  g ∈ my_hand
  ∨ (g = "rock" ∧ at_site (remove_gesture ω my_hand opp_hand) = FinalFallback).
Proof.
  assert (∀ r x, random_choice r my_hand = Return x → x ∈ my_hand) as Hchoice.
  { intros r x. unfold random_choice.
    destruct (my_hand !! _) eqn:Hl; [|done]. intros [= <-].
    by eapply list_elem_of_lookup_2. }
  remove_gesture_lists ω my_hand opp_hand.
  destruct (decide (length common = 2%nat)) as [Hc2|Hc2].
  { destruct pair as [|a [|b [|c pair]]]; simpl; try done.
    assert (a ∈ my_hand) by (apply Hmy, HS; left).
    assert (b ∈ my_hand) by (apply Hmy, HS; right; left).
    destruct (beats a b); simpl; intros [= <-]; by left. }
  destruct (decide (length common = 1%nat)) as [Hc1|Hc1].
  { destruct (decide (length my_unique ≠ 1%nat ∨ length opp_unique ≠ 1%nat)).
    { simpl. intros H. left. by eapply Hchoice. }
    destruct common as [|c [|]]; simplify_eq/=.
    destruct my_unique as [|m ?], opp_unique as [|o ?]; try done.
    assert (m ∈ my_hand) by (apply Hmy; set_solver).
    assert (c ∈ my_hand) by (apply Hmy; set_solver).
    destruct (beats m o); [simpl; intros [= <-]; by left|].
    destruct (beats o m); [simpl; intros [= <-]; by left|].
    simpl. intros [= <-]. by right. }
  unfold remove_gesture_tail.
  destruct (decide (length common = 0%nat)); simpl.
  - intros H. left. by eapply Hchoice.
  - intros [= <-]. by right.
Qed.

Lemma valid_gestures_size (l : list string) :
  Forall valid_gesture l →
  (list_to_set l : gset string) ⊆ list_to_set GESTURES.
Proof.
  intros Hv x Hx. apply elem_of_list_to_set in Hx.
  apply elem_of_list_to_set. rewrite Forall_forall in Hv. by apply Hv.
Qed.

(** Between valid gestures the last line is reached only when both sides
    show all three gestures. *)
Lemma remove_gesture_final_fallback_valid ω my_hand opp_hand :
  Forall valid_gesture my_hand → Forall valid_gesture opp_hand →
  at_site (remove_gesture ω my_hand opp_hand) = FinalFallback →
  (3 ≤ size (shared my_hand opp_hand))%nat.
Proof.
  intros Hvm Hvo. rewrite Forall_forall in Hvm, Hvo.
  remove_gesture_lists ω my_hand opp_hand.
  destruct (decide (length common = 2%nat)) as [Hc2|Hc2].
  { destruct pair as [|a [|b [|c pair]]]; simpl; try done.
    by destruct (beats a b). }
  destruct (decide (length common = 1%nat)) as [Hc1|Hc1].
  { destruct (decide (length my_unique ≠ 1%nat ∨ length opp_unique ≠ 1%nat));
      [done|].
    destruct common as [|c [|]]; simplify_eq/=.
    destruct my_unique as [|m ?], opp_unique as [|o ?]; try done.
    assert (m ∈ list_to_set my_hand ∖ list_to_set opp_hand) as Hm
      by (apply HM; left).
    assert (o ∈ list_to_set opp_hand ∖ list_to_set my_hand) as Ho
      by (apply HO; left).
    destruct (beats_total m o) as [->| ->]; [apply Hvm|apply Hvo| | |];
      [set_solver..|done|].
    by destruct (beats m o). }
  unfold remove_gesture_tail.
  destruct (decide (length common = 0%nat)); simpl; [done|]. lia.
Qed.

(** Lines 67-72: the two sides share no gesture. *)
Lemma remove_gesture_disjoint ω my_hand opp_hand :
  shared my_hand opp_hand = ∅ →
  remove_gesture ω my_hand opp_hand
  = mkRun NoCommon [] (random_choice (draw ω) my_hand).
Proof.
  unfold shared, remove_gesture. intros ->. cbv zeta.
  by rewrite list_of_set_empty.
Qed.

(** X1. The exceptions of [remove_gesture]: [IndexError] exactly on an empty
    [my_hand]; [ValueError] exactly when the opponent shows two of three or
    more different gestures of [my_hand]; never a [KeyError].  A returned
    value is a gesture of [my_hand] or ["rock"]. *)
Theorem remove_gesture_exceptions ω my_hand opp_hand :
  (value (remove_gesture ω my_hand opp_hand) = Raise IndexError ↔ my_hand = [])
  ∧ (value (remove_gesture ω my_hand opp_hand) = Raise ValueError ↔
       size (shared my_hand opp_hand) = 2%nat
       ∧ (2 < size (list_to_set my_hand : gset string))%nat)
  ∧ value (remove_gesture ω my_hand opp_hand) ≠ Raise KeyError
  ∧ (∀ g, value (remove_gesture ω my_hand opp_hand) = Return g →
          g ∈ my_hand ∨ g = "rock").
Proof.
  split; [|split; [|split]].
  - rewrite remove_gesture_raise_iff. split.
    + by intros [[_ ?]|[? _]].
    + intros ->. by left.
  - rewrite remove_gesture_raise_iff. split.
    + by intros [[? _]|[_ ?]].
    + intros ?. by right.
  - rewrite remove_gesture_raise_iff. by intros [[? _]|[? _]].
  - intros g Hg. apply remove_gesture_value_in in Hg as [?|[? _]]; auto.
Qed.

(** X2. On two gestures against two gestures, the warning is printed exactly
    when the sides share a gesture and one side shows a gesture twice. *)
Theorem remove_gesture_warning_iff ω a b c d :
  printed (remove_gesture ω [a; b] [c; d])
  = if decide ((a = b ∨ c = d) ∧ (a = c ∨ a = d ∨ b = c ∨ b = d))
    then [WARNING] else [].
Proof.
  destruct (decide (a = b)) as [->|Hab].
  { rewrite remove_gesture_twice.
    destruct (decide (b ∈ [c; d])) as [Hin|Hin].
    - rewrite decide_True; [done|]. set_unfold. naive_solver.
    - rewrite decide_False; [done|]. set_unfold. naive_solver. }
  destruct (decide (c = d)) as [->|Hcd].
  { destruct (decide (d = a ∨ d = b)) as [Hd|Hd].
    - rewrite (remove_gesture_opp_twice ω _ _ a b d)
        by (done || apply list_to_set_pair || apply list_to_set_twice).
      rewrite decide_True; [done|]. naive_solver.
    - rewrite remove_gesture_disjoint by (unfold shared; set_solver).
      rewrite decide_False; [done|]. naive_solver. }
  rewrite decide_False by naive_solver.
  destruct (decide (a = c)) as [<-|Hac]; [destruct (decide (b = d)) as [<-|Hbd]|].
  - unfold remove_gesture. cbv zeta.
    replace (list_to_set [a; b] ∩ list_to_set [a; b] : gset string)
      with ({[a; b]} : gset string) by set_solver.
    rewrite length_list_of_set, size_pair by done. simpl.
    destruct (list_of_set _ _) as [|x [|y [|]]]; try done. by destruct (beats x y).
  - rewrite (remove_gesture_one_common ω _ _ a b d) by (done || set_solver).
    by repeat case_match.
  - destruct (decide (a = d)) as [<-|Had];
      [destruct (decide (b = c)) as [<-|Hbc]|].
    + unfold remove_gesture. cbv zeta.
      replace (list_to_set [a; b] ∩ list_to_set [b; a] : gset string)
        with ({[a; b]} : gset string) by set_solver.
      rewrite length_list_of_set, size_pair by done. simpl.
      destruct (list_of_set _ _) as [|x [|y [|]]]; try done.
      by destruct (beats x y).
    + rewrite (remove_gesture_one_common ω _ _ a b c) by (done || set_solver).
      by repeat case_match.
    + destruct (decide (b = c)) as [<-|Hbc];
        [|destruct (decide (b = d)) as [<-|Hbd]].
      * rewrite (remove_gesture_one_common ω _ _ b a d) by (done || set_solver).
        by repeat case_match.
      * rewrite (remove_gesture_one_common ω _ _ b a c) by (done || set_solver).
        by repeat case_match.
      * by rewrite remove_gesture_disjoint by (unfold shared; set_solver).
Qed.

(** X3. The two players look at the same table from both sides.  When they hold
    two gestures each and share exactly one, one of them is told to remove
    the gesture the other does not have (Rule 2) and the other one to remove
    the shared gesture (Rule 4): never both the same rule. *)
Theorem remove_gesture_roles ω ω' my_hand opp_hand c m o :
  length my_hand = 2%nat → length opp_hand = 2%nat →
  valid_gesture m → valid_gesture o →
  shared my_hand opp_hand = {[c]} →
  m ∈ my_hand → m ≠ c → o ∈ opp_hand → o ≠ c →
  (beats m o = true
   ∧ remove_gesture ω my_hand opp_hand = mkRun Rule2 [] (Return m)
   ∧ remove_gesture ω' opp_hand my_hand = mkRun Rule4 [] (Return c))
  ∨ (beats o m = true
     ∧ remove_gesture ω my_hand opp_hand = mkRun Rule4 [] (Return c)
     ∧ remove_gesture ω' opp_hand my_hand = mkRun Rule2 [] (Return o)).
Proof.
  intros Hlm Hlo Hvm Hvo Hshared Hm Hmc Ho Hoc.
  destruct (one_common_sets my_hand opp_hand c m o) as (Hms & Hos & Hmo);
    [done..|].
  rewrite (remove_gesture_one_common ω _ _ c m o) by done.
  rewrite (remove_gesture_one_common ω' _ _ c o m) by done.
  destruct (beats_total m o Hvm Hvo Hmo) as [H|H]; [left|right];
    rewrite H, (beats_asym _ _ H); done.
Qed.

Lemma remove_gesture_roles_witness :
  (beats "scissors" "paper" = true
   ∧ remove_gesture oracle0 ["scissors"; "rock"] ["paper"; "rock"]
     = mkRun Rule2 [] (Return "scissors")
   ∧ remove_gesture oracle0 ["paper"; "rock"] ["scissors"; "rock"]
     = mkRun Rule4 [] (Return "rock"))
  ∨ (beats "paper" "scissors" = true
     ∧ remove_gesture oracle0 ["scissors"; "rock"] ["paper"; "rock"]
       = mkRun Rule4 [] (Return "rock")
     ∧ remove_gesture oracle0 ["paper"; "rock"] ["scissors"; "rock"]
       = mkRun Rule2 [] (Return "paper")).
Proof.
  apply (remove_gesture_roles oracle0 oracle0 ["scissors"; "rock"]
           ["paper"; "rock"] "rock" "scissors" "paper");
    try done; try (by vm_compute);
    try (unfold valid_gesture, GESTURES); set_solver.
Defined.

(** X4. When both players hold the same two different valid gestures, both are
    told to remove the same one. *)
Theorem remove_gesture_same_pair_symmetric ω ω' my_hand opp_hand a b :
  valid_gesture a → valid_gesture b → a ≠ b →
  list_to_set my_hand = ({[a; b]} : gset string) →
  list_to_set opp_hand = ({[a; b]} : gset string) →
  remove_gesture ω my_hand opp_hand = remove_gesture ω' opp_hand my_hand.
Proof.
  intros Ha Hb Hab Hm Ho.
  destruct (beats_total a b Ha Hb Hab) as [H|H].
  - by rewrite !(remove_gesture_identical _ _ _ a b).
  - assert (({[a; b]} : gset string) = {[b; a]}) as Hswap by set_solver.
    rewrite Hswap in Hm, Ho. by rewrite !(remove_gesture_identical _ _ _ b a).
Qed.

Lemma remove_gesture_same_pair_symmetric_witness :
  remove_gesture oracle0 ["paper"; "rock"] ["rock"; "paper"]
  = remove_gesture (mkOracle [1] [] [] [1] 3) ["rock"; "paper"] ["paper"; "rock"].
Proof.
  apply (remove_gesture_same_pair_symmetric oracle0 (mkOracle [1] [] [] [1] 3)
           ["paper"; "rock"] ["rock"; "paper"] "rock" "paper");
    try done; try (unfold valid_gesture, GESTURES); set_solver.
Defined.



(** ** The classifier: what it keeps *)

Lemma Hand_eq (h h' : Hand) :
  same_detection h h' → player h = player h' → side h = side h' → h = h'.
Proof.
  destruct h, h'. unfold same_detection. simpl.
  intros (-> & -> & -> & -> & ->) -> ->. done.
Qed.

Lemma my_hands_subseteq (σ : store) hands h :
  h ∈ my_hands (_assign_hands_to_players σ hands) → h ∈ hands ∧ ¬ upper_half σ h.
Proof.
  rewrite my_hands_Permutation. unfold self_of.
  rewrite list_elem_of_filter. tauto.
Qed.

Lemma opponent_hands_subseteq (σ : store) hands h :
  h ∈ opponent_hands (_assign_hands_to_players σ hands) →
  h ∈ hands ∧ upper_half σ h.
Proof.
  rewrite opponent_hands_Permutation. unfold opponent_of.
  rewrite list_elem_of_filter. tauto.
Qed.

(** X6. The classifier only labels.  It never changes what was detected and it
    leaves every object outside the list as it was.  With fewer than two SELF
    hands it writes no [side] at all; otherwise it writes [side] on the first
    two hands of [my_hands] and on no other: a third SELF hand, or a hand
    that was labelled by an earlier call, keeps the [side] it had. *)
Theorem classifier_frame (σ : store) hands :
  (∀ r, same_detection (heap (_assign_hands_to_players σ hands) r) (σ r))
  ∧ (∀ r, r ∉ hands → heap (_assign_hands_to_players σ hands) r = σ r)
  ∧ ((length (self_of σ hands) < 2)%nat →
     ∀ r, side (heap (_assign_hands_to_players σ hands) r) = side (σ r))
  ∧ (∀ r, r ∉ take 2 (my_hands (_assign_hands_to_players σ hands)) →
          side (heap (_assign_hands_to_players σ hands) r) = side (σ r))
  ∧ ((2 ≤ length (self_of σ hands))%nat →
     ∀ r, r ∈ take 2 (my_hands (_assign_hands_to_players σ hands)) →
          side (heap (_assign_hands_to_players σ hands) r) = Some "LEFT"
          ∨ side (heap (_assign_hands_to_players σ hands) r) = Some "RIGHT").
Proof.
  destruct (assign_hands_spec σ hands) as (_ & _ & Hheap).
  pose proof (proj2 (assign_hands_counts σ hands)) as Hlen.
  split; [intros r; apply Hheap|]. split; [|split; [|split]].
  - intros r Hr. apply Hand_eq.
    + apply Hheap.
    + destruct (Hheap r) as (_ & -> & _). by rewrite decide_False.
    + apply assign_hands_side_kept. intros Hin.
      apply subseteq_take, my_hands_subseteq in Hin as [? _]. done.
  - intros Hfew r. destruct (Hheap r) as (_ & _ & ->). rewrite <- Hlen in Hfew.
    destruct (my_hands _) as [|h0 [|h1 rest]]; simpl in Hfew; [done..|lia].
  - apply assign_hands_side_kept.
  - intros Htwo r Hr. destruct (Hheap r) as (_ & _ & ->). rewrite <- Hlen in Htwo.
    destruct (my_hands _) as [|h0 [|h1 rest]]; simpl in Htwo, Hr; [lia..|].
    repeat case_decide; auto. set_solver.
Qed.

(** X7. Every hand of the list lands in exactly one of the two groups, with the
    matching [player] label: none is lost, none is counted twice. *)
Theorem classifier_partition (σ : store) hands :
  (opponent_hands (_assign_hands_to_players σ hands)
     ++ my_hands (_assign_hands_to_players σ hands)) ≡ₚ hands
  ∧ (length (opponent_hands (_assign_hands_to_players σ hands))
     + length (my_hands (_assign_hands_to_players σ hands)) = length hands)%nat
  ∧ (∀ h, h ∈ opponent_hands (_assign_hands_to_players σ hands) →
          upper_half σ h
          ∧ (h ∉ my_hands (_assign_hands_to_players σ hands))
          ∧ player (heap (_assign_hands_to_players σ hands) h)
            = Some "OPPONENT")
  ∧ (∀ h, h ∈ my_hands (_assign_hands_to_players σ hands) →
          ¬ upper_half σ h
          ∧ (h ∉ opponent_hands (_assign_hands_to_players σ hands))
          ∧ player (heap (_assign_hands_to_players σ hands) h) = Some "MINE").
Proof.
  assert ((opponent_hands (_assign_hands_to_players σ hands)
             ++ my_hands (_assign_hands_to_players σ hands)) ≡ₚ hands) as Hperm.
  { rewrite opponent_hands_Permutation, my_hands_Permutation.
    apply filter_app_complement. }
  split; [done|]. split; [by rewrite <- length_app, Hperm|]. split.
  - intros h Hin. apply opponent_hands_subseteq in Hin as [Hin Hup].
    split; [done|]. split.
    + intros Hmy. by apply my_hands_subseteq in Hmy as [_ ?].
    + rewrite assign_hands_player by done. unfold label_of.
      by rewrite decide_True.
  - intros h Hin. apply my_hands_subseteq in Hin as [Hin Hup].
    split; [done|]. split.
    + intros Hopp. by apply opponent_hands_subseteq in Hopp as [_ ?].
    + rewrite assign_hands_player by done. unfold label_of.
      by rewrite decide_False.
Qed.

Section sort_by_order.
Variable key : nat → Q.

Lemma insert_by_filter_key x l k :
  filter (λ h, key h == k)%Q (insert_by key x l)
  = filter (λ h, key h == k)%Q (x :: l).
Proof.
  induction l as [|y l IH]; [done|].
  change (insert_by key x (y :: l))
    with (if decide (key y < key x)%Q then y :: insert_by key x l
          else x :: y :: l).
  destruct (decide (key y < key x)%Q) as [Hlt|Hge]; [|done].
  rewrite (filter_cons _ y), IH, !(filter_cons _ x), (filter_cons _ y).
  destruct (decide (key y == k)%Q) as [Hy|Hy]; [|done].
  destruct (decide (key x == k)%Q) as [Hx|Hx]; [exfalso|done].
  rewrite <- Hx in Hy. rewrite Hy in Hlt. by apply Qlt_irrefl in Hlt.
Qed.

(** [sort_by] keeps the order of the elements whose keys are equal. *)
Lemma sort_by_filter_key l k :
  filter (λ h, key h == k)%Q (sort_by key l) = filter (λ h, key h == k)%Q l.
Proof.
  induction l as [|x l IH]; [done|].
  change (sort_by key (x :: l)) with (insert_by key x (sort_by key l)).
  by rewrite insert_by_filter_key, !(filter_cons _ x), IH.
Qed.
End sort_by_order.

(** X8. Both groups come out in ascending order of [x_center], the opponent's
    too, and the sort is stable: hands with the same [x_center] stay in the
    order in which they were listed, and a group that was listed in order
    stays as it was. *)
Theorem classifier_sorted (σ : store) hands :
  StronglySorted (key_le (λ h, x_center (σ h)))
    (my_hands (_assign_hands_to_players σ hands))
  ∧ StronglySorted (key_le (λ h, x_center (σ h)))
      (opponent_hands (_assign_hands_to_players σ hands))
  ∧ (∀ k, filter (λ h, x_center (σ h) == k)%Q
            (my_hands (_assign_hands_to_players σ hands))
          = filter (λ h, x_center (σ h) == k)%Q (self_of σ hands))
  ∧ (∀ k, filter (λ h, x_center (σ h) == k)%Q
            (opponent_hands (_assign_hands_to_players σ hands))
          = filter (λ h, x_center (σ h) == k)%Q (opponent_of σ hands))
  ∧ (StronglySorted (key_le (λ h, x_center (σ h))) (self_of σ hands) →
     my_hands (_assign_hands_to_players σ hands) = self_of σ hands).
Proof.
  destruct (assign_hands_spec σ hands) as (-> & -> & _).
  split; [apply sort_by_sorted|]. split; [apply sort_by_sorted|].
  split; [intros k; apply sort_by_filter_key|].
  split; [intros k; apply sort_by_filter_key|].
  apply sort_by_stable.
Qed.

(** Running the classifier again on the hands it has labelled changes
    nothing: the same two groups, the same labels. *)
Lemma assign_hands_twice (σ : store) hands :
  my_hands (_assign_hands_to_players
              (heap (_assign_hands_to_players σ hands)) hands)
  = my_hands (_assign_hands_to_players σ hands)
  ∧ opponent_hands (_assign_hands_to_players
                      (heap (_assign_hands_to_players σ hands)) hands)
    = opponent_hands (_assign_hands_to_players σ hands)
  ∧ ∀ r, heap (_assign_hands_to_players
                 (heap (_assign_hands_to_players σ hands)) hands) r
         = heap (_assign_hands_to_players σ hands) r.
Proof.
  destruct (assign_hands_spec σ hands) as (Hmy1 & Hopp1 & Hheap1).
  set (s1 := _assign_hands_to_players σ hands) in *.
  destruct (assign_hands_spec (heap s1) hands) as (Hmy2 & Hopp2 & Hheap2).
  set (s2 := _assign_hands_to_players (heap s1) hands) in *.
  assert (∀ r, y_center (heap s1 r) = y_center (σ r)) as Hy
    by (intros r; apply Hheap1).
  assert (∀ r, x_center (heap s1 r) = x_center (σ r)) as Hx
    by (intros r; apply Hheap1).
  destruct (filter_upper_half_ext σ (heap s1) hands Hy) as [Hfo Hfs].
  assert (my_hands s2 = my_hands s1) as Hmy.
  { rewrite Hmy2, Hmy1, Hfs. by apply sort_by_ext. }
  assert (opponent_hands s2 = opponent_hands s1) as Hopp.
  { rewrite Hopp2, Hopp1, Hfo. by apply sort_by_ext. }
  split; [done|]. split; [done|].
  intros r. destruct (Hheap1 r) as (Hd1 & Hp1 & Hs1).
  destruct (Hheap2 r) as (Hd2 & Hp2 & Hs2). apply Hand_eq; [done| |].
  - rewrite Hp2, Hp1. case_decide; [|done].
    unfold label_of, upper_half. by rewrite Hy.
  - rewrite Hs2, Hmy, Hs1.
    destruct (my_hands s1) as [|h0 [|h1 rest]]; [done..|].
    by repeat case_decide.
Qed.

(** ** [solve]: from the names of the gestures to the answer *)

Lemma GESTURE_ID_MAP_lookup (id : Z) name :
  GESTURE_ID_MAP !! id = Some name ↔
    (id = 0%Z ∧ name = "rock") ∨ (id = 1%Z ∧ name = "paper")
    ∨ (id = 2%Z ∧ name = "scissors").
Proof.
  unfold GESTURE_ID_MAP.
  rewrite !lookup_insert_Some, lookup_empty. split.
  - intros [[<- <-]|[? [[<- <-]|[? [[<- <-]|[_ ?]]]]]]; auto. done.
  - intros [[-> ->]|[[-> ->]|[-> ->]]]; auto 10.
Qed.

Lemma GESTURE_ID_MAP_valid (id : Z) name :
  GESTURE_ID_MAP !! id = Some name → valid_gesture name.
Proof.
  rewrite GESTURE_ID_MAP_lookup. unfold valid_gesture, GESTURES.
  intros [[_ ->]|[[_ ->]|[_ ->]]]; set_solver.
Qed.

Lemma gesture_name_Return (σ : store) h name :
  gesture_name σ h = Return name ↔
  GESTURE_ID_MAP !! gesture_id (σ h) = Some name.
Proof.
  unfold gesture_name. destruct (GESTURE_ID_MAP !! _); split; congruence.
Qed.

Lemma gesture_name_Raise (σ : store) h e :
  gesture_name σ h = Raise e ↔
  e = KeyError ∧ GESTURE_ID_MAP !! gesture_id (σ h) = None.
Proof.
  unfold gesture_name. destruct (GESTURE_ID_MAP !! _); split.
  - done.
  - by intros [_ ?].
  - by intros [= <-].
  - by intros [-> _].
Qed.

(** The list comprehension gives the names in the order of the hands, or
    raises [KeyError] at the first hand whose class is not in the map. *)
Lemma gesture_names_of_Return (σ : store) hs names :
  gesture_names_of σ hs = Return names ↔
  Forall2 (λ h name, GESTURE_ID_MAP !! gesture_id (σ h) = Some name) hs names.
Proof.
  revert names. induction hs as [|h hs IH]; intros names; simpl.
  - split; [intros [= <-]; constructor|by intros ->%Forall2_nil_inv_l].
  - destruct (gesture_name σ h) as [name|e] eqn:Hname; simpl.
    + apply gesture_name_Return in Hname.
      destruct (gesture_names_of σ hs) as [names'|e] eqn:Hnames; simpl.
      * split.
        -- intros [= <-]. constructor; [done|]. by apply IH.
        -- intros (name' & names'' & H1 & H2 & ->)%Forall2_cons_inv_l.
           apply IH in H2. by simplify_eq.
      * split; [done|].
        intros (name' & names'' & H1 & H2 & ->)%Forall2_cons_inv_l.
        by apply IH in H2.
    + apply gesture_name_Raise in Hname as [_ Hname]. split; [done|].
      intros (name' & names'' & H1 & H2 & ->)%Forall2_cons_inv_l. congruence.
Qed.

Lemma gesture_names_of_Raise (σ : store) hs e :
  gesture_names_of σ hs = Raise e ↔
  e = KeyError ∧ ∃ h, h ∈ hs ∧ GESTURE_ID_MAP !! gesture_id (σ h) = None.
Proof.
  revert e. induction hs as [|h hs IH]; intros e; simpl.
  - split; [done|]. intros [_ (h & Hh & _)]. set_solver.
  - destruct (gesture_name σ h) as [name|e'] eqn:Hname; simpl.
    + apply gesture_name_Return in Hname.
      destruct (gesture_names_of σ hs) as [names'|e'] eqn:Hnames; simpl.
      * split; [done|]. intros [He (h' & Hin & Hnone)].
        apply elem_of_cons in Hin as [->|Hin]; [congruence|].
        assert (Return names' = Raise e :> result (list string)); [|done].
        apply IH. eauto.
      * split.
        -- intros [= <-]. destruct (proj1 (IH e') eq_refl) as [-> (h' & ? & ?)].
           split; [done|]. exists h'. split; [by right|done].
        -- intros [-> _]. by destruct (proj1 (IH e') eq_refl) as [-> _].
    + apply gesture_name_Raise in Hname as [-> Hname]. split.
      * intros [= <-]. split; [done|]. exists h. split; [by left|done].
      * by intros [-> _].
Qed.

Lemma gesture_names_of_ext (σ σ' : store) hs :
  (∀ h, gesture_id (σ' h) = gesture_id (σ h)) →
  gesture_names_of σ' hs = gesture_names_of σ hs.
Proof.
  intros Hid. induction hs as [|h hs IH]; simpl; [done|].
  unfold gesture_name. by rewrite Hid, IH.
Qed.

(** Lines 160-193 once the names are known: the answer is the instruction
    for the side whose hand shows the gesture to remove, the left one when
    both do, and the logic-error message when neither does. *)
Lemma solve_game_closed ω s l r hrest m0 m1 mrest o0 o1 orest :
  my_hands s = l :: r :: hrest →
  gesture_names_of (heap s) (my_hands s) = Return (m0 :: m1 :: mrest) →
  gesture_names_of (heap s) (opponent_hands s) = Return (o0 :: o1 :: orest) →
  solve_game ω s
  = (printed (remove_gesture ω (m0 :: m1 :: mrest) (o0 :: o1 :: orest)),
     match value (remove_gesture ω (m0 :: m1 :: mrest) (o0 :: o1 :: orest)) with
     | Raise e => Raise e
     | Return g =>
         Return (if decide (m0 = g) then result_message m0 m1 o0 o1 g "LEFT"
                 else if decide (m1 = g)
                      then result_message m0 m1 o0 o1 g "RIGHT"
                      else logic_error_message g)
     end).
Proof.
  intros Hmy Hm Ho. unfold solve_game. rewrite Hm, Ho.
  rewrite Hmy in Hm. apply gesture_names_of_Return in Hm.
  apply Forall2_cons_1 in Hm as [Hl Hm]. apply Forall2_cons_1 in Hm as [Hr _].
  apply gesture_name_Return in Hl, Hr.
  f_equal. destruct (value _) as [g|e]; simpl; [|done].
  rewrite Hmy. simpl. rewrite Hl. simpl. rewrite Hr. simpl.
  destruct (decide (m0 = g)) as [->|Hne0].
  - rewrite bool_decide_eq_true_2 by done.
    by destruct (bool_decide (m1 = g)).
  - rewrite bool_decide_eq_false_2 by done.
    destruct (decide (m1 = g)) as [->|Hne1].
    + by rewrite bool_decide_eq_true_2 by done.
    + by rewrite bool_decide_eq_false_2 by done.
Qed.

Lemma size_two_names (m0 m1 : string) :
  (size (list_to_set [m0; m1] : gset string) ≤ 2)%nat.
Proof.
  destruct (decide (m0 = m1)) as [->|Hne].
  - rewrite list_to_set_twice, size_singleton. lia.
  - by rewrite list_to_set_pair, size_pair.
Qed.

(** Two valid gestures in hand: the call returns one of them. *)
Lemma remove_gesture_two_names ω m0 m1 onames :
  valid_gesture m0 → valid_gesture m1 → Forall valid_gesture onames →
  ∃ g, value (remove_gesture ω [m0; m1] onames) = Return g
       ∧ (g = m0 ∨ g = m1).
Proof.
  intros Hv0 Hv1 Hvo. pose proof (size_two_names m0 m1) as Hsize.
  destruct (value (remove_gesture ω [m0; m1] onames)) as [g|e] eqn:Hval.
  - exists g. split; [done|].
    apply remove_gesture_value_in in Hval as [Hin|[_ Hsite]].
    + set_unfold. tauto.
    + apply remove_gesture_final_fallback_valid in Hsite;
        [|by apply Forall_cons_2; [|apply Forall_singleton]|done].
      assert (size (shared [m0; m1] onames)
              ≤ size (list_to_set [m0; m1] : gset string))%nat
        by (apply subseteq_size; unfold shared; set_solver).
      lia.
  - apply remove_gesture_raise_iff in Hval as [[_ ?]|(_ & _ & ?)]; [done|lia].
Qed.

(** The names of hands whose classes are known. *)
Lemma gesture_names_of_known (σ σ' : store) hs :
  (∀ h, gesture_id (σ' h) = gesture_id (σ h)) →
  (∀ h, h ∈ hs → known_class σ h) →
  ∃ names, gesture_names_of σ' hs = Return names
           ∧ Forall2 (λ h name, GESTURE_ID_MAP !! gesture_id (σ h) = Some name)
               hs names
           ∧ Forall valid_gesture names.
Proof.
  intros Hid Hknown. rewrite (gesture_names_of_ext σ σ') by done.
  destruct (gesture_names_of σ hs) as [names|e] eqn:Hnames.
  - exists names. split; [done|]. apply gesture_names_of_Return in Hnames.
    split; [done|]. clear Hknown. induction Hnames; constructor; [|done].
    by eapply GESTURE_ID_MAP_valid.
  - apply gesture_names_of_Raise in Hnames as [_ (h & Hin & Hnone)].
    destruct (Hknown h Hin) as [name Hname]. congruence.
Qed.

Lemma logic_error_not_instruction g my0 my1 opp0 opp1 g' side :
  Return (logic_error_message g)
  ≠ Return (result_message my0 my1 opp0 opp1 g' side).
Proof.
  intros H.
  apply (f_equal (λ r, match r with
                       | Return s => first_char s
                       | Raise _ => None
                       end)) in H.
  discriminate H.
Qed.

Lemma logic_error_not_count_mismatch g n m :
  Return (logic_error_message g) ≠ Return (count_mismatch_message n m).
Proof.
  unfold logic_error_message, count_mismatch_message. intros H.
  discriminate H.
Qed.

(** With two hands or more on each side, [solve] is lines 160-193. *)
Lemma solve_enough ω (σ : store) hands :
  (2 ≤ length (opponent_of σ hands))%nat → (2 ≤ length (self_of σ hands))%nat →
  answer (solve ω σ hands)
  = (solve_game ω (_assign_hands_to_players σ hands)).2
  ∧ output (solve ω σ hands)
    = (solve_game ω (_assign_hands_to_players σ hands)).1.
Proof.
  intros Hopp Hmy. unfold solve.
  destruct (assign_hands_counts σ hands) as [Ho Hm].
  rewrite decide_False by lia. by destruct (solve_game _ _).
Qed.

Lemma solve_final ω (σ : store) hands :
  final (solve ω σ hands) = _assign_hands_to_players σ hands.
Proof. unfold solve. case_decide; [done|]. by destruct (solve_game _ _). Qed.

Lemma assign_hands_gesture_id (σ : store) hands h :
  gesture_id (heap (_assign_hands_to_players σ hands) h) = gesture_id (σ h).
Proof.
  destruct (assign_hands_spec σ hands) as (_ & _ & Hheap). apply Hheap.
Qed.

(** The names [solve] works with, when both sides have two hands or more
    and every class is known. *)
Lemma solve_names (σ : store) hands :
  (2 ≤ length (opponent_of σ hands))%nat → (2 ≤ length (self_of σ hands))%nat →
  (∀ h, h ∈ hands → known_class σ h) →
  ∃ l r hrest m0 m1 mrest o0 o1 orest,
    my_hands (_assign_hands_to_players σ hands) = l :: r :: hrest
    ∧ length mrest = length hrest
    ∧ GESTURE_ID_MAP !! gesture_id (σ l) = Some m0
    ∧ GESTURE_ID_MAP !! gesture_id (σ r) = Some m1
    ∧ Forall valid_gesture (m0 :: m1 :: mrest)
    ∧ Forall valid_gesture (o0 :: o1 :: orest)
    ∧ gesture_names_of (heap (_assign_hands_to_players σ hands))
        (my_hands (_assign_hands_to_players σ hands))
      = Return (m0 :: m1 :: mrest)
    ∧ gesture_names_of (heap (_assign_hands_to_players σ hands))
        (opponent_hands (_assign_hands_to_players σ hands))
      = Return (o0 :: o1 :: orest).
Proof.
  intros Hopp Hmy Hknown.
  destruct (assign_hands_counts σ hands) as [Ho Hm].
  set (s := _assign_hands_to_players σ hands) in *.
  destruct (gesture_names_of_known σ (heap s) (my_hands s))
    as (mnames & Hmn & Hm2 & Hmv).
  { apply assign_hands_gesture_id. }
  { intros h Hin. by apply Hknown, (my_hands_subseteq σ hands). }
  destruct (gesture_names_of_known σ (heap s) (opponent_hands s))
    as (onames & Hon & Ho2 & Hov).
  { apply assign_hands_gesture_id. }
  { intros h Hin. by apply Hknown, (opponent_hands_subseteq σ hands). }
  pose proof (Forall2_length _ _ _ Ho2) as Hlo.
  destruct (my_hands s) as [|l [|r hrest]] eqn:Hmyh; simpl in Hm; [lia..|].
  apply Forall2_cons_inv_l in Hm2 as (m0 & mnames' & Hl & Hm2 & ->).
  apply Forall2_cons_inv_l in Hm2 as (m1 & mrest & Hr & Hm2 & ->).
  destruct onames as [|o0 [|o1 orest]]; simpl in Hlo; [lia..|].
  exists l, r, hrest, m0, m1, mrest, o0, o1, orest.
  apply Forall2_length in Hm2. symmetry in Hm2. by repeat split.
Qed.

(** X9. With exactly two SELF hands, two OPPONENT hands or more and every class
    known, [solve] raises nothing and returns a removal instruction, never
    the logic-error message.  The instruction names the gesture
    [remove_gesture] chose and the side of a hand that shows it; when both
    hands show it, the left one. *)
Theorem solve_two_self_hands ω (σ : store) hands :
  length (self_of σ hands) = 2%nat →
  (2 ≤ length (opponent_of σ hands))%nat →
  (∀ h, h ∈ hands → known_class σ h) →
  ∃ l r my0 my1 opp0 opp1 orest g,
    my_hands (_assign_hands_to_players σ hands) = [l; r]
    ∧ GESTURE_ID_MAP !! gesture_id (σ l) = Some my0
    ∧ GESTURE_ID_MAP !! gesture_id (σ r) = Some my1
    ∧ gesture_names_of σ (opponent_hands (_assign_hands_to_players σ hands))
      = Return (opp0 :: opp1 :: orest)
    ∧ value (remove_gesture ω [my0; my1] (opp0 :: opp1 :: orest)) = Return g
    ∧ (g = my0 ∨ g = my1)
    ∧ answer (solve ω σ hands)
      = Return (result_message my0 my1 opp0 opp1 g
                  (if decide (g = my0) then "LEFT" else "RIGHT")).
Proof.
  intros Hmy Hopp Hknown.
  destruct (solve_names σ hands)
    as (l & r & hrest & m0 & m1 & mrest & o0 & o1 & orest
        & Hmyh & Hlen & Hl & Hr & Hmv & Hov & Hmn & Hon); [done|lia|done|].
  assert (hrest = []) as ->.
  { pose proof (proj2 (assign_hands_counts σ hands)) as Hc.
    rewrite Hmyh, Hmy in Hc. simpl in Hc. destruct hrest; [done|simpl in Hc; lia]. }
  destruct mrest; [|done].
  apply Forall_cons in Hmv as [Hv0 Hmv]. apply Forall_cons in Hmv as [Hv1 _].
  destruct (remove_gesture_two_names ω m0 m1 (o0 :: o1 :: orest))
    as (g & Hval & Hg); [done..|].
  exists l, r, m0, m1, o0, o1, orest, g.
  split; [done|]. split; [done|]. split; [done|]. split.
  { rewrite <- Hon. symmetry. apply gesture_names_of_ext.
    apply assign_hands_gesture_id. }
  split; [done|]. split; [done|].
  destruct (solve_enough ω σ hands) as [-> _]; [done|lia|].
  rewrite (solve_game_closed ω _ l r [] m0 m1 [] o0 o1 orest) by done.
  simpl. rewrite Hval.
  destruct (decide (g = m0)) as [->|Hne].
  - by rewrite decide_True.
  - rewrite decide_False by done. destruct Hg as [? | ->]; [done|].
    by rewrite decide_True.
Qed.

(** Two OPPONENT hands (rock, scissors) and two SELF hands: paper on the
    left, rock on the right. *)
Lemma solve_two_self_hands_witness :
  ∃ l r my0 my1 opp0 opp1 orest g,
    my_hands (_assign_hands_to_players (store_of four_hands) [0; 1; 2; 3]%nat)
    = [l; r]
    ∧ GESTURE_ID_MAP !! gesture_id (store_of four_hands l) = Some my0
    ∧ GESTURE_ID_MAP !! gesture_id (store_of four_hands r) = Some my1
    ∧ gesture_names_of (store_of four_hands)
        (opponent_hands
           (_assign_hands_to_players (store_of four_hands) [0; 1; 2; 3]%nat))
      = Return (opp0 :: opp1 :: orest)
    ∧ value (remove_gesture oracle0 [my0; my1] (opp0 :: opp1 :: orest))
      = Return g
    ∧ (g = my0 ∨ g = my1)
    ∧ answer (solve oracle0 (store_of four_hands) [0; 1; 2; 3]%nat)
      = Return (result_message my0 my1 opp0 opp1 g
                  (if decide (g = my0) then "LEFT" else "RIGHT")).
Proof.
  apply (solve_two_self_hands oracle0 (store_of four_hands) [0; 1; 2; 3]%nat).
  - by vm_compute.
  - vm_compute. lia.
  - intros h Hh. unfold known_class.
    set_unfold. destruct Hh as [->|[->|[->|[->|[]]]]]; vm_compute; eauto.
Defined.

Lemma size_list_to_set_le (l : list string) :
  (size (list_to_set l : gset string) ≤ length l)%nat.
Proof.
  induction l as [|x l IH].
  - by rewrite list_to_set_nil, size_empty.
  - rewrite list_to_set_cons, size_union_alt, size_singleton. simpl.
    assert (size (list_to_set l ∖ {[x]} : gset string)
            ≤ size (list_to_set l : gset string))%nat
      by (apply subseteq_size; set_solver).
    lia.
Qed.

Lemma hands_in_groups (σ : store) hands h :
  h ∈ hands →
  h ∈ opponent_hands (_assign_hands_to_players σ hands)
  ∨ h ∈ my_hands (_assign_hands_to_players σ hands).
Proof.
  intros Hin. rewrite opponent_hands_Permutation, my_hands_Permutation.
  unfold opponent_of, self_of. rewrite !list_elem_of_filter.
  destruct (decide (upper_half σ h)); auto.
Qed.

(** X10. The exceptions of [solve].  It raises [KeyError] exactly when both
    sides have two hands or more and the class of some hand is not a key of
    [GESTURE_ID_MAP]; it never raises [IndexError].  [ValueError] and the
    logic-error message need three SELF hands or more. *)
Theorem solve_exceptions ω (σ : store) hands :
  (answer (solve ω σ hands) = Raise KeyError ↔
     (2 ≤ length (opponent_of σ hands))%nat
     ∧ (2 ≤ length (self_of σ hands))%nat
     ∧ ∃ h, h ∈ hands ∧ ¬ known_class σ h)
  ∧ answer (solve ω σ hands) ≠ Raise IndexError
  ∧ (answer (solve ω σ hands) = Raise ValueError →
     (3 ≤ length (self_of σ hands))%nat)
  ∧ (∀ g, answer (solve ω σ hands) = Return (logic_error_message g) →
          (3 ≤ length (self_of σ hands))%nat).
Proof.
  destruct (decide (length (opponent_of σ hands) < 2
                    ∨ length (self_of σ hands) < 2)%nat) as [Hfew|Hmany].
  { destruct (solve_too_few ω σ hands Hfew) as [-> _].
    split; [split; [done|lia]|]. split; [done|]. split; [done|].
    intros g H. symmetry in H. by apply logic_error_not_count_mismatch in H. }
  assert (2 ≤ length (opponent_of σ hands))%nat as Hopp by lia.
  assert (2 ≤ length (self_of σ hands))%nat as Hmy by lia.
  destruct (solve_enough ω σ hands Hopp Hmy) as [-> _].
  destruct (assign_hands_counts σ hands) as [Hco Hcm].
  pose proof (hands_in_groups σ hands) as Hgroups.
  pose proof (my_hands_subseteq σ hands) as Hmysub.
  pose proof (opponent_hands_subseteq σ hands) as Hoppsub.
  pose proof (assign_hands_gesture_id σ hands) as Hid.
  set (s := _assign_hands_to_players σ hands) in *.
  assert (∀ hs e, (∀ h, h ∈ hs → h ∈ hands) →
                  gesture_names_of (heap s) hs = Raise e →
                  e = KeyError ∧ ∃ h, h ∈ hands ∧ ¬ known_class σ h) as Hraise.
  { intros hs e Hsub [-> (h & Hin & Hnone)]%gesture_names_of_Raise.
    split; [done|]. exists h. split; [by apply Hsub|].
    unfold known_class. rewrite <- Hid, Hnone. by intros [? ?]. }
  assert (∀ hs names, gesture_names_of (heap s) hs = Return names →
                      ∀ h, h ∈ hs → known_class σ h) as Hreturn.
  { intros hs names HF%gesture_names_of_Return h Hin.
    apply list_elem_of_lookup in Hin as [i Hi].
    destruct (Forall2_lookup_l _ _ _ _ _ HF Hi) as (name & _ & Hname).
    unfold known_class. rewrite <- Hid. eauto. }
  destruct (gesture_names_of (heap s) (my_hands s)) as [mnames|e] eqn:Hmn.
  2:{ destruct (Hraise _ _ (λ h Hh, proj1 (Hmysub h Hh)) Hmn) as [-> Hex].
      unfold solve_game. rewrite Hmn. simpl. by repeat split. }
  destruct (gesture_names_of (heap s) (opponent_hands s)) as [onames|e] eqn:Hon.
  2:{ destruct (Hraise _ _ (λ h Hh, proj1 (Hoppsub h Hh)) Hon) as [-> Hex].
      unfold solve_game. rewrite Hmn, Hon. simpl. by repeat split. }
  assert (∀ h, h ∈ hands → known_class σ h) as Hknown.
  { intros h Hin.
    destruct (Hgroups h Hin);
      [by apply (Hreturn _ _ Hon)|by apply (Hreturn _ _ Hmn)]. }
  pose proof (proj1 (gesture_names_of_Return _ _ _) Hmn) as Hlm.
  pose proof (proj1 (gesture_names_of_Return _ _ _) Hon) as Hlo.
  apply Forall2_length in Hlm, Hlo.
  destruct (my_hands s) as [|l [|r hrest]] eqn:Hmyh; simpl in Hcm; [lia..|].
  destruct mnames as [|m0 [|m1 mrest]]; simpl in Hlm; [lia..|].
  destruct onames as [|o0 [|o1 orest]]; simpl in Hlo; [lia..|].
  rewrite (solve_game_closed ω s l r hrest m0 m1 mrest o0 o1 orest)
    by (done || by rewrite Hmyh).
  simpl.
  assert (Forall valid_gesture (m0 :: m1 :: mrest)
          ∧ Forall valid_gesture (o0 :: o1 :: orest)) as [Hvm Hvo].
  { destruct (solve_names σ hands Hopp Hmy Hknown)
      as (? & ? & ? & ? & ? & ? & ? & ? & ? & _ & _ & _ & _ & ? & ? & Hmn' & Hon').
    fold s in Hmn', Hon'. rewrite Hmyh, Hmn in Hmn'. rewrite Hon in Hon'.
    by simplify_eq. }
  destruct (value (remove_gesture ω (m0 :: m1 :: mrest) (o0 :: o1 :: orest)))
    as [g|e] eqn:Hval.
  - split; [split; [done|]|].
    { intros (_ & _ & h & Hin & Hnot). by destruct Hnot; apply Hknown. }
    split; [done|]. split; [done|]. intros g' Hg'.
    destruct mrest as [|m2 mrest]; [exfalso|simpl in Hlm; lia].
    apply Forall_cons in Hvm as [Hv0 Hvm]. apply Forall_cons in Hvm as [Hv1 _].
    destruct (remove_gesture_two_names ω m0 m1 (o0 :: o1 :: orest))
      as (g'' & Hval' & Hg''); [done..|].
    rewrite Hval in Hval'. injection Hval' as <-.
    destruct (decide (m0 = g)) as [->|Hne0].
    { symmetry in Hg'. by apply logic_error_not_instruction in Hg'. }
    destruct (decide (m1 = g)) as [->|Hne1].
    { symmetry in Hg'. by apply logic_error_not_instruction in Hg'. }
    destruct Hg''; congruence.
  - apply remove_gesture_raise_iff in Hval as [[-> ?]|(-> & _ & Hsize)]; [done|].
    split; [split; [done|]|].
    { intros (_ & _ & h & Hin & Hnot). by destruct Hnot; apply Hknown. }
    split; [done|]. split; [|done]. intros _.
    pose proof (size_list_to_set_le (m0 :: m1 :: mrest)) as Hle.
    change (length (m0 :: m1 :: mrest)) with (S (S (length mrest))) in Hle.
    lia.
Qed.

Lemma gesture_name_ext (σ σ' : store) h :
  gesture_id (σ' h) = gesture_id (σ h) → gesture_name σ' h = gesture_name σ h.
Proof. intros Hid. unfold gesture_name. by rewrite Hid. Qed.

(** Lines 160-193 read the two groups and the classes of their hands, and
    nothing else. *)
Lemma solve_game_ext ω s s' :
  my_hands s' = my_hands s → opponent_hands s' = opponent_hands s →
  (∀ r, gesture_id (heap s' r) = gesture_id (heap s r)) →
  solve_game ω s' = solve_game ω s.
Proof.
  intros Hmy Hopp Hid. unfold solve_game. rewrite Hmy, Hopp.
  rewrite !(gesture_names_of_ext (heap s) (heap s')) by done.
  destruct (gesture_names_of (heap s) (my_hands s)) as [mnames|e]; [|done].
  destruct (gesture_names_of (heap s) (opponent_hands s)) as [onames|e];
    [|done].
  f_equal. destruct (value _) as [g|e]; [|done]. simpl.
  destruct (index (my_hands s) 0) as [h0|e]; [|done]. simpl.
  rewrite (gesture_name_ext (heap s) (heap s') h0) by done.
  destruct (gesture_name (heap s) h0) as [name0|e]; [|done]. simpl.
  destruct (index (my_hands s) 1) as [h1|e]; simpl.
  - rewrite (gesture_name_ext (heap s) (heap s') h1) by done. done.
  - by destruct (bool_decide (name0 = g)).
Qed.

(** X11. A second call of [solve] on the same hands, now labelled, finds the same
    two groups, changes no label and gives the same answer (for the same
    draws): the labels of an earlier call do not influence a later one. *)
Theorem solve_repeatable ω (σ : store) hands :
  answer (solve ω (heap (final (solve ω σ hands))) hands)
  = answer (solve ω σ hands)
  ∧ output (solve ω (heap (final (solve ω σ hands))) hands)
    = output (solve ω σ hands)
  ∧ my_hands (final (solve ω (heap (final (solve ω σ hands))) hands))
    = my_hands (final (solve ω σ hands))
  ∧ opponent_hands (final (solve ω (heap (final (solve ω σ hands))) hands))
    = opponent_hands (final (solve ω σ hands))
  ∧ ∀ r, heap (final (solve ω (heap (final (solve ω σ hands))) hands)) r
         = heap (final (solve ω σ hands)) r.
Proof.
  rewrite !solve_final.
  destruct (assign_hands_twice σ hands) as (Hmy & Hopp & Hheap).
  set (s1 := _assign_hands_to_players σ hands) in *.
  assert (solve_game ω (_assign_hands_to_players (heap s1) hands)
          = solve_game ω s1) as Hgame.
  { apply solve_game_ext; [done..|]. intros r. by rewrite Hheap. }
  split; [|split; [|done]].
  - unfold solve. fold s1. rewrite Hmy, Hopp, Hgame.
    case_decide; [done|]. by destruct (solve_game ω s1).
  - unfold solve. fold s1. rewrite Hmy, Hopp, Hgame.
    case_decide; [done|]. by destruct (solve_game ω s1).
Qed.

(** ** [detect_hands] and [main] *)

Lemma detect_loop_spec bs gesture_map hands :
  detect_loop bs gesture_map hands = hands ++ omap (hand_of_box gesture_map) bs.
Proof.
  revert hands. induction bs as [|box bs IH]; intros hands.
  - simpl. by rewrite app_nil_r.
  - change (omap (hand_of_box gesture_map) (box :: bs))
      with (match hand_of_box gesture_map box with
            | Some h => h :: omap (hand_of_box gesture_map) bs
            | None => omap (hand_of_box gesture_map) bs
            end).
    unfold hand_of_box at 1. simpl.
    case_decide; rewrite IH; [|done]. by rewrite <- app_assoc.
Qed.

Lemma length_omap_le {A B} (f : A → option B) (l : list A) :
  (length (omap f l) ≤ length l)%nat.
Proof.
  induction l as [|x l IH]; [done|].
  change (omap f (x :: l))
    with (match f x with Some y => y :: omap f l | None => omap f l end).
  destruct (f x); simpl; lia.
Qed.

Lemma detect_hands_hands image_path model_path gesture_map yolo :
  (detect_hands image_path model_path gesture_map yolo).2
  = omap (hand_of_box gesture_map) (first_boxes yolo).
Proof.
  destruct yolo as [details|[|r results]]; simpl; [done..|].
  destruct (boxes r) as [|box bs] eqn:Hb; [done|].
  by rewrite detect_loop_spec.
Qed.

(** X12. What [detect_hands] returns.  The hands are the boxes of the first
    result whose class, truncated to an integer, is a key of the map, in the
    order of the boxes and with the position of their box; they carry no
    label yet.  No box with a known class is dropped, boxes of further
    results are not read, and a model that fails to load gives no hand and
    two printed lines. *)
Theorem detect_hands_spec image_path model_path gesture_map yolo :
  (∀ h, h ∈ (detect_hands image_path model_path gesture_map yolo).2 →
        is_Some (gesture_map !! gesture_id h)
        ∧ player h = None ∧ side h = None
        ∧ ∃ box, box ∈ first_boxes yolo
                 ∧ h = new_Hand (int (cls box)) (box_x box) (box_y box)
                                (box_w box) (box_h box))
  ∧ (∀ box, box ∈ first_boxes yolo →
            is_Some (gesture_map !! int (cls box)) →
            new_Hand (int (cls box)) (box_x box) (box_y box)
                     (box_w box) (box_h box)
            ∈ (detect_hands image_path model_path gesture_map yolo).2)
  ∧ (detect_hands image_path model_path gesture_map yolo).2
    = omap (hand_of_box gesture_map) (first_boxes yolo)
  ∧ (length (detect_hands image_path model_path gesture_map yolo).2
     ≤ length (first_boxes yolo))%nat
  ∧ (∀ details, yolo = LoadError details →
       (detect_hands image_path model_path gesture_map yolo).2 = []
       ∧ length (detect_hands image_path model_path gesture_map yolo).1
         = 2%nat)
  ∧ (∀ results, yolo = Loaded results →
       (detect_hands image_path model_path gesture_map yolo).1 = []).
Proof.
  rewrite detect_hands_hands. split; [|split; [|split; [|split; [|split]]]].
  - intros h (box & Hin & Hbox)%list_elem_of_omap.
    unfold hand_of_box in Hbox. case_decide; [|done].
    injection Hbox as <-. eauto 10.
  - intros box Hin Hknown. apply list_elem_of_omap. exists box.
    split; [done|]. unfold hand_of_box. by rewrite decide_True.
  - done.
  - apply length_omap_le.
  - by intros details ->.
  - intros results ->. simpl. destruct results as [|r ?]; [done|].
    by destruct (boxes r).
Qed.

Lemma store_of_lookup (l : list Hand) i h : l !! i = Some h → store_of l i = h.
Proof. intros Hi. unfold store_of. by rewrite nth_lookup, Hi. Qed.

(** Counting over the references of [store_of l] is counting over [l]. *)
Lemma filter_store_of (P : Hand → Prop) `{!∀ h, Decision (P h)}
    (pre l : list Hand) :
  length (filter (λ r, P (store_of (pre ++ l) r)) (seq (length pre) (length l)))
  = length (filter P l).
Proof.
  revert pre. induction l as [|h l IH]; intros pre; [done|].
  change (seq (length pre) (length (h :: l)))
    with (length pre :: seq (S (length pre)) (length l)).
  assert (store_of (pre ++ h :: l) (length pre) = h) as Hh.
  { apply store_of_lookup. by rewrite lookup_app_r, Nat.sub_diag by lia. }
  specialize (IH (pre ++ [h])).
  rewrite <- app_assoc, length_app, Nat.add_1_r in IH. simpl in IH.
  rewrite !filter_cons, Hh. case_decide; simpl; by rewrite IH.
Qed.

(** With every class known, [solve] can only fail at the unpacking of line
    40, and only with three SELF hands or more. *)
Lemma solve_known_raises ω (σ : store) hands e :
  (∀ h, h ∈ hands → known_class σ h) →
  answer (solve ω σ hands) = Raise e →
  e = ValueError ∧ (3 ≤ length (self_of σ hands))%nat.
Proof.
  intros Hknown.
  destruct (decide (length (opponent_of σ hands) < 2
                    ∨ length (self_of σ hands) < 2)%nat) as [Hfew|Hmany].
  { by destruct (solve_too_few ω σ hands Hfew) as [-> _]. }
  destruct (solve_enough ω σ hands) as [-> _]; [lia..|].
  destruct (solve_names σ hands)
    as (l & r & hrest & m0 & m1 & mrest & o0 & o1 & orest
        & Hmyh & Hlen & _ & _ & _ & _ & Hmn & Hon); [lia..|done|].
  rewrite (solve_game_closed ω _ l r hrest m0 m1 mrest o0 o1 orest) by done.
  simpl.
  destruct (value (remove_gesture ω (m0 :: m1 :: mrest) (o0 :: o1 :: orest)))
    as [g|e'] eqn:Hval; [done|]. intros [= ->].
  apply remove_gesture_raise_iff in Hval as [[_ ?]|(-> & _ & Hsize)]; [done|].
  split; [done|].
  pose proof (size_list_to_set_le (m0 :: m1 :: mrest)) as Hle.
  change (length (m0 :: m1 :: mrest)) with (S (S (length mrest))) in Hle.
  pose proof (proj2 (assign_hands_counts σ hands)) as Hc.
  rewrite Hmyh in Hc. simpl in Hc. lia.
Qed.

Lemma detect_hands_known image_path model_path yolo r :
  r ∈ seq 0 (length (detect_hands image_path model_path GESTURE_ID_MAP yolo).2) →
  known_class
    (store_of (detect_hands image_path model_path GESTURE_ID_MAP yolo).2) r.
Proof.
  intros [_ Hr]%elem_of_seq. simpl in Hr.
  apply lookup_lt_is_Some in Hr as [h Hh].
  unfold known_class. rewrite (store_of_lookup _ _ _ Hh).
  apply list_elem_of_lookup_2 in Hh. rewrite detect_hands_hands in Hh.
  apply list_elem_of_omap in Hh as (box & _ & Hbox).
  unfold hand_of_box in Hbox. case_decide; [|done]. by injection Hbox as <-.
Qed.

(** X13. [main] cannot fail on a dictionary lookup, since [detect_hands] keeps the
    known classes only, nor on an index.  The one exception that ends it is
    the [ValueError] of line 40, and only when three hands or more are
    detected in the lower half of the frame. *)
Theorem main_exceptions ω image_path yolo e :
  (main ω image_path yolo).2 = Raise e →
  e = ValueError
  ∧ (3 ≤ length (filter (λ h, ¬ (y_center h < 0.5)%Q)
                   (detect_hands image_path YOLO_MODEL_PATH GESTURE_ID_MAP
                                 yolo).2))%nat.
Proof.
  unfold main.
  pose proof (detect_hands_known image_path YOLO_MODEL_PATH yolo) as Hknown.
  destruct (detect_hands image_path YOLO_MODEL_PATH GESTURE_ID_MAP yolo)
    as [out hands]. cbn [fst snd] in *.
  destruct hands as [|h hands]; [done|].
  destruct (answer (solve ω _ _)) as [instruction|e'] eqn:Hans; [done|].
  intros [= ->].
  apply solve_known_raises in Hans as [-> Hlen]; [|done]. split; [done|].
  pose proof (filter_store_of (λ h, ¬ (y_center h < 0.5)%Q) [] (h :: hands))
    as Hcount.
  unfold self_of, upper_half in Hlen. by rewrite <- Hcount.
Qed.

Lemma main_exceptions_witness :
  ValueError = ValueError
  ∧ (3 ≤ length (filter (λ h, ¬ (y_center h < 0.5)%Q)
                   (detect_hands "game.jpg" YOLO_MODEL_PATH GESTURE_ID_MAP
                                 five_boxes).2))%nat.
Proof.
  apply (main_exceptions oracle0 "game.jpg" five_boxes ValueError).
  by vm_compute.
Defined.

(** X14. When no box of the first result has a known class (no result, no box, a
    model that failed to load), [main] prints its first line, what
    [detect_hands] printed and the no-hands line, and returns without
    calling [solve]. *)
Theorem main_no_hands ω image_path yolo :
  (∀ box, box ∈ first_boxes yolo →
          ¬ is_Some (GESTURE_ID_MAP !! int (cls box))) →
  main ω image_path yolo
  = (("Running detection on " +:+ image_path +:+ " using model "
      +:+ YOLO_MODEL_PATH +:+ "...")
     :: (detect_hands image_path YOLO_MODEL_PATH GESTURE_ID_MAP yolo).1
     ++ [NO_HANDS],
     Return ()).
Proof.
  intros Hunknown. unfold main.
  pose proof (detect_hands_hands image_path YOLO_MODEL_PATH GESTURE_ID_MAP yolo)
    as Hhands.
  destruct (detect_hands image_path YOLO_MODEL_PATH GESTURE_ID_MAP yolo)
    as [out hands]. simpl in *.
  destruct hands as [|h hands]; [done|]. exfalso.
  assert (h ∈ omap (hand_of_box GESTURE_ID_MAP) (first_boxes yolo)) as Hin
    by (rewrite <- Hhands; left).
  apply list_elem_of_omap in Hin as (box & Hbox & Hh).
  unfold hand_of_box in Hh. case_decide; [|done]. by eapply Hunknown.
Qed.

Lemma main_no_hands_witness :
  main oracle0 "game.jpg" unknown_box
  = (("Running detection on " +:+ "game.jpg" +:+ " using model "
      +:+ YOLO_MODEL_PATH +:+ "...")
     :: (detect_hands "game.jpg" YOLO_MODEL_PATH GESTURE_ID_MAP unknown_box).1
     ++ [NO_HANDS],
     Return ()).
Proof.
  apply (main_no_hands oracle0 "game.jpg" unknown_box).
  intros box Hbox. simpl in Hbox. apply list_elem_of_singleton in Hbox as ->.
  vm_compute. by intros [? ?].
Defined.
